(** * Native instruction views of the x86 port (nativeInst_x86.hpp)

    A shallow embedding of the instruction views declared in
    [src/hotspot/cpu/x86/nativeInst_x86.hpp]: the raw accessors of
    [NativeInstruction], the prefix-aware classifiers, and the variants
    [NativeCall], [NativeCallReg], [NativeMovConstReg], [NativeJump] and
    [NativePostCallNop].

    Code memory is a total map from addresses to bytes.  Addresses and
    [intptr_t] are 64 bits wide (LP64), [jint] is 32 bits wide; every
    machine operation is written over [Z] with its wrap-around spelled out.
    Mutating accessors run in a small state-and-failure monad whose state
    carries the code memory and the log of stores and instruction-cache
    notifications. *)

From Stdlib Require Import ZArith List Bool Lia String.
From Stdlib Require Import Strings.Byte.
Import ListNotations.

Local Open Scope Z_scope.

(** ** Machine integers *)

Module MachInt.

(** Reduction of an integer to [w] bits, read unsigned. *)
Definition unsigned (w : Z) (z : Z) : Z := z mod 2 ^ w.

(** Reduction of an integer to [w] bits, read in two's complement. *)
Definition signed (w : Z) (z : Z) : Z :=
  let u := unsigned w z in
  if u <? 2 ^ (w - 1) then u else u - 2 ^ w.

(** The C++ conversions the header uses. *)
Definition cast_jint (z : Z) : Z := signed 32 z.       (* (jint) / (int) *)
Definition cast_short (z : Z) : Z := signed 16 z.      (* (short)        *)
Definition cast_intptr (z : Z) : Z := signed 64 z.     (* (intptr_t)     *)
Definition cast_schar (z : Z) : Z := signed 8 z.       (* (s_char)       *)

(** [labs] on a 64-bit [long]. *)
Definition labs (z : Z) : Z := cast_intptr (Z.abs z).

Definition min_jint : Z := - 2 ^ 31.
Definition max_jint : Z := 2 ^ 31 - 1.
Definition min_intptr : Z := - 2 ^ 63.
Definition max_intptr : Z := 2 ^ 63 - 1.

Definition fits_jint (z : Z) : bool := (min_jint <=? z) && (z <=? max_jint).

End MachInt.

(** ** Code memory *)

Module Mem.

(** [address] is [u_char*]: a 64-bit pointer. *)
Definition address : Type := Z.
Definition address_bits : Z := 64.

(** Pointer arithmetic wraps at the width of a pointer. *)
Definition wrap (a : Z) : address := MachInt.unsigned address_bits a.

(** [(address) -1] *)
Definition minus_one : address := wrap (-1).

(** Difference of two pointers, a [ptrdiff_t]. *)
Definition ptr_diff (a b : address) : Z := MachInt.cast_intptr (a - b).

Definition memory : Type := address -> byte.

Definition Z_of_byte (b : byte) : Z := Z.of_N (Byte.to_N b).

Definition byte_of_Z (z : Z) : byte :=
  match Byte.of_N (Z.to_N (z mod 256)) with
  | Some b => b
  | None => x00
  end.

Definition store_byte (m : memory) (a : address) (b : byte) : memory :=
  fun p => if p =? a then b else m p.

(** Little-endian load of [n] bytes starting at [a], read unsigned. *)
Fixpoint load_le (m : memory) (a : Z) (n : nat) : Z :=
  match n with
  | O => 0
  | S k => Z_of_byte (m (wrap a)) + 256 * load_le m (a + 1) k
  end.

(** Little-endian store of the low [n] bytes of [v] starting at [a]. *)
Fixpoint store_le (m : memory) (a : Z) (n : nat) (v : Z) : memory :=
  match n with
  | O => m
  | S k => store_le (store_byte m (wrap a) (byte_of_Z v)) (a + 1) k (v / 256)
  end.

(** The memory that holds the byte sequence [bs] at [base] and zero
    elsewhere. *)
Definition of_bytes (base : address) (bs : list byte) : memory :=
  fun p =>
    if (base <=? p) && (p <? base + Z.of_nat (List.length bs))
    then List.nth (Z.to_nat (p - base)) bs x00
    else x00.

End Mem.

Import MachInt Mem.

(** ** Collaborators declared outside this header *)

(** The prefix bytes of [Assembler::Prefix] and [Assembler::PrefixBits]
    ([asm/assembler.hpp] is included by the header, its values are not part
    of it): they are parameters of the development. *)
Class Assembler : Type := {
  REX : Z;
  REX_B : Z;
  REX_W : Z;
  REX_WB : Z;
  REX2 : Z;
  REX2BIT_W : Z;
  REX2BIT_WB : Z;
  REX2BIT_WB4 : Z
}.

(** Whether the build defines [ASSERT] (a checked build), which turns
    [assert] into a fatal check. *)
Class Build : Type := { ASSERT : bool }.

(** Modelled from the spec: [wordSize] comes from the shared global
    definitions, which this header only uses.  The immediate load carries a
    "full-width constant" and its two layouts are 10 and 11 bytes long, so a
    word is 8 bytes. *)
Definition wordSize : Z := 8.

(** ** The patching monad: code memory, the write log, fatal errors *)

Module Patch.

(** What a mutating accessor does, in program order. *)
Inductive event : Type :=
| Store (a : address) (width : nat)        (* [width] bytes stored at [a] *)
| Wrote (this : address) (offset : Z).     (* [this->wrote(offset)] ran   *)

Record machine : Type := {
  code : memory;
  log : list event
}.

Inductive outcome (A : Type) : Type :=
| Returned (a : A)
| Fatal (msg : string).
Arguments Returned {A} a.
Arguments Fatal {A} msg.

Definition M (A : Type) : Type := machine -> outcome A * machine.

Definition ret {A : Type} (a : A) : M A := fun s => (Returned a, s).

Definition bind {A B : Type} (c : M A) (k : A -> M B) : M B :=
  fun s =>
    match c s with
    | (Returned a, s') => k a s'
    | (Fatal msg, s') => (Fatal msg, s')
    end.

(** A raw store of [width] bytes through a casted pointer. *)
Definition store (a : address) (width : nat) (v : Z) : M unit :=
  fun s =>
    (Returned tt,
     {| code := store_le (code s) a width v;
        log := log s ++ [Store a width] |}).

(** Modelled from the spec: [NativeInstruction::wrote] is only declared in
    the header.  It is the instruction-cache coherency hook, "invoked as
    [wrote(offset)] after every mutating write"; it changes no code byte,
    and the model records that it ran. *)
Definition wrote (this : address) (offset : Z) : M unit :=
  fun s =>
    (Returned tt, {| code := code s; log := log s ++ [Wrote this offset] |}).

(** Modelled from the spec: [guarantee] is a macro of the shared debugging
    utilities.  A violated guarantee is "always fatal, never silently
    clamped": the operation stops there, in every build. *)
Definition guarantee (cond : bool) (msg : string) : M unit :=
  fun s => if cond then (Returned tt, s) else (Fatal msg, s).

(** Modelled from the spec: [assert] is a macro of the shared debugging
    utilities, "fatal in checked builds, undefined/unchecked in optimized
    builds". *)
Definition assert_ {bld : Build} (cond : bool) (msg : string) : M unit :=
  if ASSERT then guarantee cond msg else ret tt.

(** The final state of a run. *)
Definition exec {A : Type} (c : M A) (s : machine) : machine := snd (c s).

(** The result of a run. *)
Definition result {A : Type} (c : M A) (s : machine) : outcome A := fst (c s).

(** A machine in which nothing was written yet. *)
Definition boot (m : memory) : machine := {| code := m; log := [] |}.

End Patch.

Import Patch.

Declare Scope patch_scope.
Delimit Scope patch_scope with patch.
Notation "c1 ;; c2" := (bind c1 (fun _ => c2))
  (at level 61, right associativity) : patch_scope.
Notation "x <- c1 ;; c2" := (bind c1 (fun x => c2))
  (at level 61, c1 at next level, right associativity) : patch_scope.

(** ** [class NativeInstruction] *)

Module NativeInstruction.

Definition nop_instruction_code : Z := 0x90.
Definition nop_instruction_size : Z := 1.

Definition addr_at (this : address) (offset : Z) : address :=
  wrap (this + offset).

Definition sbyte_at (m : memory) (this : address) (offset : Z) : Z :=
  cast_schar (Z_of_byte (m (addr_at this offset))).

Definition ubyte_at (m : memory) (this : address) (offset : Z) : Z :=
  Z_of_byte (m (addr_at this offset)).

Definition int_at (m : memory) (this : address) (offset : Z) : Z :=
  cast_jint (load_le m (addr_at this offset) 4).

Definition ptr_at (m : memory) (this : address) (offset : Z) : Z :=
  cast_intptr (load_le m (addr_at this offset) 8).

(** An [oop] is a pointer into the heap. *)
Definition oop_at (m : memory) (this : address) (offset : Z) : Z :=
  load_le m (addr_at this offset) 8.

Definition set_char_at (this : address) (offset : Z) (c : Z) : M unit :=
  (store (addr_at this offset) 1 c ;; wrote this offset)%patch.

Definition set_int_at (this : address) (offset : Z) (i : Z) : M unit :=
  (store (addr_at this offset) 4 i ;; wrote this offset)%patch.

Definition set_ptr_at (this : address) (offset : Z) (ptr : Z) : M unit :=
  (store (addr_at this offset) 8 ptr ;; wrote this offset)%patch.

Definition set_oop_at (this : address) (offset : Z) (o : Z) : M unit :=
  (store (addr_at this offset) 8 o ;; wrote this offset)%patch.

Definition is_nop (m : memory) (this : address) : bool :=
  ubyte_at m this 0 =? nop_instruction_code.

Definition has_rex2_prefix {asm : Assembler} (m : memory) (this : address)
  : bool :=
  ubyte_at m this 0 =? REX2.

Definition nativeInstruction_at (a : address) : address := a.

End NativeInstruction.

Import NativeInstruction.

(** ** [class NativeCall]: call rel32 *)

Module NativeCall.

Definition instruction_code : Z := 0xE8.
Definition instruction_size : Z := 5.
Definition instruction_offset : Z := 0.
Definition displacement_offset : Z := 1.
Definition return_address_offset : Z := 5.

Definition byte_size : Z := instruction_size.

Definition instruction_address (this : address) : address :=
  addr_at this instruction_offset.

Definition next_instruction_address (this : address) : address :=
  addr_at this return_address_offset.

Definition displacement (m : memory) (this : address) : Z :=
  cast_jint (int_at m this displacement_offset).

Definition displacement_address (this : address) : address :=
  addr_at this displacement_offset.

Definition return_address (this : address) : address :=
  addr_at this return_address_offset.

(** Modelled from the spec: [NativeCall::destination] is only declared in
    the header.  The data model gives its value:
    "destination = return_address + displacement". *)
Definition destination (m : memory) (this : address) : address :=
  wrap (return_address this + displacement m this).

Definition set_destination (this : address) (dest : address) : M unit :=
  (let disp := ptr_diff dest (return_address this) in
   guarantee (disp =? cast_intptr (cast_jint disp)) "must be 32-bit offset" ;;
   set_int_at this displacement_offset
     (cast_jint (ptr_diff dest (return_address this))))%patch.



Definition nativeCall_at (a : address) : address :=
  wrap (a - instruction_offset).


End NativeCall.

(** ** [class NativeCallReg]: call through a register, FF /2 *)

Module NativeCallReg.

Definition instruction_code : Z := 0xFF.
Definition instruction_offset : Z := 0.
Definition return_address_offset_norex : Z := 2.
Definition return_address_offset_rex : Z := 3.
Definition return_address_offset_rex2 : Z := 4.

Definition next_instruction_offset {asm : Assembler} {bld : Build}
    (m : memory) (this : address) : outcome Z :=
  if ubyte_at m this 0 =? instruction_code then
    Returned return_address_offset_norex
  else if has_rex2_prefix m this then
    Returned return_address_offset_rex2
  else if ASSERT && negb (Z.land (ubyte_at m this 0) 0xF0 =? REX) then
    Fatal ""
  else
    Returned return_address_offset_rex.

End NativeCallReg.

(** ** [class NativeMovConstReg]: [REX/REX2] [OPCODE] [IMM] *)

Module NativeMovConstReg.

Definition has_rex : bool := true.
Definition rex_size : Z := 1.
Definition rex2_size : Z := 2.

Definition instruction_code : Z := 0xB8.
Definition instruction_offset : Z := 0.
Definition instruction_size_rex : Z := 1 + rex_size + wordSize.
Definition instruction_size_rex2 : Z := 1 + rex2_size + wordSize.
Definition data_offset_rex : Z := 1 + rex_size.
Definition data_offset_rex2 : Z := 1 + rex2_size.
Definition next_instruction_offset_rex : Z := instruction_size_rex.
Definition next_instruction_offset_rex2 : Z := instruction_size_rex2.
Definition register_mask : Z := 0x07.

Section Accessors.
Context {asm : Assembler}.

Definition instruction_size (m : memory) (this : address) : Z :=
  if has_rex2_prefix m this then instruction_size_rex2
  else instruction_size_rex.

Definition next_inst_offset (m : memory) (this : address) : Z :=
  if has_rex2_prefix m this then next_instruction_offset_rex2
  else next_instruction_offset_rex.

Definition data_byte_offset (m : memory) (this : address) : Z :=
  if has_rex2_prefix m this then data_offset_rex2 else data_offset_rex.

Definition instruction_address (this : address) : address :=
  addr_at this instruction_offset.

Definition next_instruction_address (m : memory) (this : address)
  : address :=
  addr_at this (next_inst_offset m this).

Definition data (m : memory) (this : address) : Z :=
  ptr_at m this (data_byte_offset m this).

Definition set_data (this : address) (x : Z) : M unit :=
  fun s => set_ptr_at this (data_byte_offset (code s) this) x s.

Definition nativeMovConstReg_at (a : address) : address :=
  wrap (a - instruction_offset).


End Accessors.

End NativeMovConstReg.

(** ** [class NativeJump]: jmp rel32 *)

Module NativeJump.

Definition instruction_code : Z := 0xe9.
Definition instruction_size : Z := 5.
Definition instruction_offset : Z := 0.
Definition data_offset : Z := 1.
Definition next_instruction_offset : Z := 5.

Definition instruction_address (this : address) : address :=
  addr_at this instruction_offset.

Definition next_instruction_address (this : address) : address :=
  addr_at this next_instruction_offset.

(** The destination the displacement field encodes, before the
    jump-to-self test: the first line of [jump_destination]. *)
Definition encoded_destination (m : memory) (this : address) : address :=
  wrap (int_at m this data_offset + next_instruction_address this).

Definition jump_destination (m : memory) (this : address) : address :=
  let dest := encoded_destination m this in
  (* return -1 if jump to self *)
  let dest := if dest =? this then minus_one else dest in
  dest.

Definition set_jump_destination {bld : Build}
    (this : address) (dest : address) : M unit :=
  (let val := ptr_diff dest (next_instruction_address this) in
   let val := if dest =? minus_one then -5 (* jump to self *) else val in
   assert_ ((Z.land (unsigned 64 (labs val)) 0xFFFFFFFF00000000 =? 0)
            || (dest =? minus_one))
           "must be 32bit offset or -1" ;;
   set_int_at this data_offset (cast_jint val))%patch.

Definition nativeJump_at (a : address) : address :=
  wrap (a - instruction_offset).

End NativeJump.

(** ** Fixed-shape instructions *)

Module NativeGeneralJump.
Definition unconditional_long_jump : Z := 0xe9.
Definition unconditional_short_jump : Z := 0xeb.
Definition instruction_size : Z := 5.

Definition instruction_address (this : address) : address := addr_at this 0.
End NativeGeneralJump.

Module NativeIllegalInstruction.
Definition instruction_code : Z := 0x0B0F.   (* real byte order: 0x0F, 0x0B *)
Definition instruction_size : Z := 2.
Definition instruction_offset : Z := 0.
Definition next_instruction_offset : Z := 2.
End NativeIllegalInstruction.

Module NativeReturn.
Definition instruction_code : Z := 0xC3.
Definition instruction_size : Z := 1.
Definition instruction_offset : Z := 0.
Definition next_instruction_offset : Z := 1.
End NativeReturn.

Module NativeReturnX.
Definition instruction_code : Z := 0xC2.
Definition instruction_size : Z := 2.
Definition instruction_offset : Z := 0.
Definition next_instruction_offset : Z := 2.
End NativeReturnX.

Module NativeTstRegMem.
Definition instruction_rex_prefix_mask : Z := 0xF0.
Definition instruction_rex_prefix {asm : Assembler} : Z := REX.
Definition instruction_rex_b_prefix {asm : Assembler} : Z := REX_B.
Definition instruction_code_memXregl : Z := 0x85.
Definition modrm_mask : Z := 0x38.   (* select reg from the ModRM byte *)
Definition modrm_reg : Z := 0x00.    (* rax *)
End NativeTstRegMem.


(** ** The inline classifiers of [NativeInstruction] *)

Module Classifier.

Section Predicates.
Context {asm : Assembler}.

Definition is_illegal (m : memory) (this : address) : bool :=
  cast_short (int_at m this 0)
  =? cast_short NativeIllegalInstruction.instruction_code.

Definition is_call (m : memory) (this : address) : bool :=
  ubyte_at m this 0 =? NativeCall.instruction_code.

Definition is_call_reg (m : memory) (this : address) : bool :=
  (ubyte_at m this 0 =? NativeCallReg.instruction_code)
  || ((ubyte_at m this 1 =? NativeCallReg.instruction_code)
      && ((ubyte_at m this 0 =? REX) || (ubyte_at m this 0 =? REX_B))).

Definition is_return (m : memory) (this : address) : bool :=
  (ubyte_at m this 0 =? NativeReturn.instruction_code)
  || (ubyte_at m this 0 =? NativeReturnX.instruction_code).

Definition is_jump (m : memory) (this : address) : bool :=
  (ubyte_at m this 0 =? NativeJump.instruction_code)
  || (ubyte_at m this 0 =? 0xEB) (* short jump *).

Definition is_jump_reg (m : memory) (this : address) : bool :=
  let pos := if ubyte_at m this 0 =? REX_B then 1 else 0 in
  (ubyte_at m this pos =? 0xFF)
  && (Z.land (ubyte_at m this (pos + 1)) 0xF0 =? 0xE0).

Definition is_cond_jump (m : memory) (this : address) : bool :=
  (Z.land (int_at m this 0) 0xF0FF =? 0x800F) (* long jump *)
  || (Z.land (ubyte_at m this 0) 0xF0 =? 0x70) (* short jump *).

Definition is_safepoint_poll (m : memory) (this : address) : bool :=
  let has_rex_prefix :=
    ubyte_at m this 0 =? NativeTstRegMem.instruction_rex_b_prefix in
  let test_offset :=
    if has_rex2_prefix m this then 2 else (if has_rex_prefix then 1 else 0) in
  let is_test_opcode :=
    ubyte_at m this test_offset =? NativeTstRegMem.instruction_code_memXregl in
  let is_rax_target :=
    Z.land (ubyte_at m this (test_offset + 1)) NativeTstRegMem.modrm_mask
    =? NativeTstRegMem.modrm_reg in
  is_test_opcode && is_rax_target.

Definition is_mov_literal64 (m : memory) (this : address) : bool :=
  let valid_rex_prefix :=
    (ubyte_at m this 0 =? REX_W) || (ubyte_at m this 0 =? REX_WB) in
  let valid_rex2_prefix :=
    (ubyte_at m this 0 =? REX2)
    && ((ubyte_at m this 1 =? REX2BIT_W)
        || (ubyte_at m this 1 =? REX2BIT_WB)
        || (ubyte_at m this 1 =? REX2BIT_WB4)) in
  let opcode :=
    if has_rex2_prefix m this then ubyte_at m this 2 else ubyte_at m this 1 in
  (valid_rex_prefix || valid_rex2_prefix)
  && (Z.land opcode (Z.lxor 0xff NativeMovConstReg.register_mask) =? 0xB8).

End Predicates.

End Classifier.

(** ** [class NativePostCallNop]: the metadata slot after a call *)

Module NativePostCallNop.

Definition instruction_code : Z := 0x0f.
Definition instruction_size : Z := 8.
Definition instruction_offset : Z := 0.
Definition displacement_offset : Z := 4.

Definition check (m : memory) (this : address) : bool :=
  int_at m this 0 =? 0x841f0f.

(** The two reference parameters are passed in with the values they hold at
    the call; the result carries the return value and the values they hold
    at the return, [oopmap_slot] first. *)
Definition decode (m : memory) (this : address) (oopmap_slot cb_offset : Z)
  : bool * (Z * Z) :=
  let data := cast_jint (int_at m this displacement_offset) in
  if data =? 0 then
    (false, (oopmap_slot, cb_offset)) (* no information encoded *)
  else
    let cb_offset := cast_jint (Z.land data 0xffffff) in
    let oopmap_slot := cast_jint (Z.land (Z.shiftr data 24) 0xff) in
    (true, (oopmap_slot, cb_offset)) (* decoding succeeded *).

(** [nullptr] is [None]. *)
Definition nativePostCallNop_at (m : memory) (a : address) : option address :=
  let nop := a in
  if check m nop then Some nop else None.

Definition nativePostCallNop_unsafe_at {bld : Build}
    (m : memory) (a : address) : outcome address :=
  let nop := a in
  if ASSERT && negb (check m nop) then Fatal "" else Returned nop.

End NativePostCallNop.

(** ** [class NativeDeoptInstruction] *)

Module NativeDeoptInstruction.

Definition instruction_prefix : Z := 0x0F.
Definition instruction_code : Z := 0xFF.
Definition instruction_size : Z := 3.
Definition instruction_offset : Z := 0.

Definition instruction_address (this : address) : address :=
  addr_at this instruction_offset.

Definition next_instruction_address (this : address) : address :=
  addr_at this instruction_size.

Definition is_deopt_at (m : memory) (instr : address) : bool :=
  (Z.land (Z_of_byte (m instr)) 0xFF =? instruction_prefix)
  && (Z.land (Z_of_byte (m (wrap (instr + 1)))) 0xFF =? instruction_code).

End NativeDeoptInstruction.

(** ** The Intel encodings, for running the model *)

(** The values the x86-64 architecture gives the prefixes: the REX family
    is 0x40..0x4F (W is bit 3, B is bit 0), REX2 is 0xD5 and its payload
    byte carries W in bit 3, B in bit 0 and B4 in bit 4. *)
#[export] Instance x86_64 : Assembler := {|
  REX := 0x40;
  REX_B := 0x41;
  REX_W := 0x48;
  REX_WB := 0x49;
  REX2 := 0xD5;
  REX2BIT_W := 0x08;
  REX2BIT_WB := 0x09;
  REX2BIT_WB4 := 0x18
|}.

Definition product_build : Build := {| ASSERT := false |}.
Definition checked_build : Build := {| ASSERT := true |}.

(** ** The write discipline of the view *)

Module WriteDiscipline.

(** One call of a mutating accessor of [NativeInstruction]. *)
Inductive setter_call : Type :=
| SetChar (offset : Z) (c : Z)
| SetInt (offset : Z) (i : Z)
| SetPtr (offset : Z) (ptr : Z)
| SetOop (offset : Z) (o : Z).

Definition run_setter (this : address) (call : setter_call) : M unit :=
  match call with
  | SetChar offset c => set_char_at this offset c
  | SetInt offset i => set_int_at this offset i
  | SetPtr offset ptr => set_ptr_at this offset ptr
  | SetOop offset o => set_oop_at this offset o
  end.

(** Any straight-line sequence of setter calls on one view. *)
Fixpoint run_setters (this : address) (calls : list setter_call) : M unit :=
  match calls with
  | [] => ret tt
  | call :: rest => (run_setter this call ;; run_setters this rest)%patch
  end.

(** A log is disciplined when the event right after every store is the
    hook, called for the address that was stored to. *)
Fixpoint hook_follows_stores (l : list event) : bool :=
  match l with
  | [] => true
  | Store a _ :: rest =>
      match rest with
      | Wrote this offset :: _ =>
          (addr_at this offset =? a) && hook_follows_stores rest
      | _ => false
      end
  | Wrote _ _ :: rest => hook_follows_stores rest
  end.

End WriteDiscipline.

Import WriteDiscipline.

(** ** The classifiers as the specification words them *)

Module SpecWords.

Section Prefixes.
Context {asm : Assembler}.

(** "optionally skip a REX2 prefix (2 bytes) or a plain REX-extended-base
    prefix (1 byte)": the number of bytes skipped before the test opcode,
    from the first byte of the instruction. *)
Inductive poll_prefix_skip (first : Z) : Z -> Prop :=
| skip_rex2 : first = REX2 -> poll_prefix_skip first 2
| skip_rex_b : first <> REX2 -> first = REX_B -> poll_prefix_skip first 1
| skip_none : first <> REX2 -> first <> REX_B -> poll_prefix_skip first 0.

(** "first byte equals the indirect-call opcode, or a REX/REX-extended
    prefix is present and the following byte equals it". *)
Definition call_reg_shape (first second : Z) : Prop :=
  first = 0xFF \/ ((first = REX \/ first = REX_B) /\ second = 0xFF).

End Prefixes.

End SpecWords.

Import SpecWords.

(** ** Facts about machine integers and memory *)

Lemma unsigned_range (w z : Z) : 0 <= w -> 0 <= unsigned w z < 2 ^ w.
Proof.
  intros Hw. unfold unsigned. apply Z.mod_pos_bound.
  apply Z.pow_pos_nonneg; lia.
Qed.

Lemma signed_of_small (w z : Z) :
  0 < w -> - 2 ^ (w - 1) <= z < 2 ^ (w - 1) -> signed w z = z.
Proof.
  intros Hw Hz. unfold signed, unsigned.
  assert (Hp : 2 ^ w = 2 * 2 ^ (w - 1)).
  { replace w with (Z.succ (w - 1)) at 1 by lia. apply Z.pow_succ_r. lia. }
  assert (Hpos : 0 < 2 ^ (w - 1)) by (apply Z.pow_pos_nonneg; lia).
  destruct (Z_lt_le_dec z 0) as [Hneg | Hnn].
  - assert (Hm : z mod 2 ^ w = z + 2 ^ w).
    { symmetry. apply (Z.mod_unique_pos _ _ (-1)); lia. }
    rewrite Hm. destruct (Z.ltb_spec (z + 2 ^ w) (2 ^ (w - 1))); lia.
  - rewrite Z.mod_small by lia.
    destruct (Z.ltb_spec z (2 ^ (w - 1))); lia.
Qed.

Lemma signed_range (w z : Z) :
  0 < w -> - 2 ^ (w - 1) <= signed w z < 2 ^ (w - 1).
Proof.
  intros Hw. unfold signed.
  assert (Hp : 2 ^ w = 2 * 2 ^ (w - 1)).
  { replace w with (Z.succ (w - 1)) at 1 by lia. apply Z.pow_succ_r. lia. }
  pose proof (unsigned_range w z ltac:(lia)) as Hu.
  destruct (Z.ltb_spec (unsigned w z) (2 ^ (w - 1))); lia.
Qed.

Lemma signed_unsigned (w z : Z) :
  0 <= w -> signed w (unsigned w z) = signed w z.
Proof.
  intros Hw. unfold signed, unsigned.
  rewrite Z.mod_mod by (apply Z.pow_nonzero; lia). reflexivity.
Qed.

Lemma unsigned_signed (w z : Z) : 0 < w -> unsigned w (signed w z) = unsigned w z.
Proof.
  intros Hw. unfold signed.
  pose proof (unsigned_range w z ltac:(lia)) as Hu.
  assert (Hnz : 2 ^ w <> 0) by (apply Z.pow_nonzero; lia).
  destruct (Z.ltb_spec (unsigned w z) (2 ^ (w - 1))).
  - unfold unsigned. apply Z.mod_mod; assumption.
  - unfold unsigned.
    replace (z mod 2 ^ w - 2 ^ w) with (z mod 2 ^ w + (-1) * 2 ^ w) by ring.
    rewrite Z.mod_add by assumption. apply Z.mod_mod; assumption.
Qed.

Lemma signed_fixpoint_iff (w z : Z) :
  0 < w -> (z = signed w z <-> - 2 ^ (w - 1) <= z < 2 ^ (w - 1)).
Proof.
  intros Hw. split.
  - intros ->. apply signed_range; assumption.
  - intros Hz. symmetry. apply signed_of_small; assumption.
Qed.

Lemma fits_jint_spec (z : Z) :
  fits_jint z = true <-> - 2 ^ 31 <= z < 2 ^ 31.
Proof.
  unfold fits_jint, min_jint, max_jint.
  rewrite andb_true_iff, !Z.leb_le. lia.
Qed.

Lemma Z_of_byte_range (b : byte) : 0 <= Z_of_byte b < 256.
Proof.
  unfold Z_of_byte. pose proof (Byte.to_N_bounded b). lia.
Qed.

Lemma Z_of_byte_of_Z (z : Z) : Z_of_byte (byte_of_Z z) = z mod 256.
Proof.
  unfold Z_of_byte, byte_of_Z.
  assert (Hr : 0 <= z mod 256 < 256) by (apply Z.mod_pos_bound; lia).
  destruct (Byte.of_N (Z.to_N (z mod 256))) as [b|] eqn:E.
  - apply Byte.to_of_N in E. rewrite E. lia.
  - apply Byte.of_N_None_iff in E. lia.
Qed.

Lemma byte_of_Z_of_byte (b : byte) : byte_of_Z (Z_of_byte b) = b.
Proof.
  unfold byte_of_Z. pose proof (Z_of_byte_range b) as Hr.
  rewrite Z.mod_small by assumption.
  unfold Z_of_byte. rewrite N2Z.id, Byte.of_to_N. reflexivity.
Qed.

Lemma wrap_range (a : Z) : 0 <= wrap a < 2 ^ 64.
Proof. apply (unsigned_range 64 a). lia. Qed.

Lemma wrap_small (a : Z) : 0 <= a < 2 ^ 64 -> wrap a = a.
Proof. intros H. unfold wrap, unsigned, address_bits. apply Z.mod_small, H. Qed.

Lemma wrap_wrap_add (a d : Z) : wrap (wrap a + d) = wrap (a + d).
Proof.
  unfold wrap, unsigned, address_bits.
  rewrite Zplus_mod_idemp_l. reflexivity.
Qed.

Lemma wrap_add_neq (a d : Z) : 0 < d < 2 ^ 64 -> wrap (a + d) <> wrap a.
Proof.
  intros Hd Heq. unfold wrap, unsigned, address_bits in Heq.
  assert (H0 : (a + d - a) mod 2 ^ 64 = 0).
  { rewrite Zminus_mod, Heq, Z.sub_diag. reflexivity. }
  replace (a + d - a) with d in H0 by ring.
  rewrite Z.mod_small in H0 by lia. lia.
Qed.

(** *** Stores and loads *)

Lemma store_byte_same (m : memory) (a : address) (b : byte) :
  store_byte m a b a = b.
Proof. unfold store_byte. rewrite Z.eqb_refl. reflexivity. Qed.

Lemma store_byte_other (m : memory) (a p : address) (b : byte) :
  a <> p -> store_byte m a b p = m p.
Proof.
  intros Hne. unfold store_byte.
  destruct (Z.eqb_spec p a); [congruence | reflexivity].
Qed.

(** A store leaves every byte outside its range as it was. *)
Lemma store_le_other (n : nat) :
  forall (m : memory) (a v : Z) (p : address),
    (forall i, 0 <= i < Z.of_nat n -> wrap (a + i) <> p) ->
    store_le m a n v p = m p.
Proof.
  induction n as [|k IH]; intros m a v p Hout; cbn [store_le].
  - reflexivity.
  - rewrite IH.
    + apply store_byte_other.
      specialize (Hout 0). rewrite Z.add_0_r in Hout. apply Hout. lia.
    + intros i Hi. replace (a + 1 + i) with (a + (1 + i)) by ring.
      apply Hout. lia.
Qed.

(** A load reads back the low bytes of what the store wrote there. *)
Lemma load_store_le_same (n : nat) :
  forall (m : memory) (a v : Z),
    Z.of_nat n <= 2 ^ 64 ->
    load_le (store_le m a n v) a n = v mod 256 ^ Z.of_nat n.
Proof.
  induction n as [|k IH]; intros m a v Hn.
  - cbn. rewrite Z.mod_1_r. reflexivity.
  - cbn [load_le store_le].
    rewrite store_le_other.
    + rewrite store_byte_same, Z_of_byte_of_Z, IH by lia.
      rewrite Nat2Z.inj_succ, Z.pow_succ_r by lia.
      rewrite Z.rem_mul_r; [reflexivity | lia |].
      apply Z.pow_pos_nonneg; lia.
    + intros i Hi. replace (a + 1 + i) with (a + (1 + i)) by ring.
      apply wrap_add_neq. lia.
Qed.

Lemma load_le_range (n : nat) :
  forall (m : memory) (a : Z), 0 <= load_le m a n < 256 ^ Z.of_nat n.
Proof.
  induction n as [|k IH]; intros m a.
  - cbn. lia.
  - cbn [load_le]. rewrite Nat2Z.inj_succ, Z.pow_succ_r by lia.
    pose proof (Z_of_byte_range (m (wrap a))).
    specialize (IH m (a + 1)). nia.
Qed.

(** Loads only depend on the bytes they cover. *)
Lemma load_le_ext (n : nat) :
  forall (m m' : memory) (a : Z),
    (forall i, 0 <= i < Z.of_nat n -> m' (wrap (a + i)) = m (wrap (a + i))) ->
    load_le m' a n = load_le m a n.
Proof.
  induction n as [|k IH]; intros m m' a Heq; cbn [load_le].
  - reflexivity.
  - rewrite (IH m m' (a + 1)).
    + specialize (Heq 0). rewrite Z.add_0_r in Heq. rewrite Heq by lia.
      reflexivity.
    + intros i Hi. replace (a + 1 + i) with (a + (1 + i)) by ring.
      apply Heq. lia.
Qed.

Lemma load_le_4 (m : memory) (a : Z) :
  load_le m a 4 =
  Z_of_byte (m (wrap a)) + 2 ^ 8 * Z_of_byte (m (wrap (a + 1)))
  + 2 ^ 16 * Z_of_byte (m (wrap (a + 2)))
  + 2 ^ 24 * Z_of_byte (m (wrap (a + 3))).
Proof.
  cbn [load_le].
  replace (a + 1 + 1) with (a + 2) by ring.
  replace (a + 2 + 1) with (a + 3) by ring.
  change (2 ^ 8) with 256. change (2 ^ 16) with 65536.
  change (2 ^ 24) with 16777216. ring.
Qed.

(** *** Accessors of the view *)

Lemma addr_at_wrap (this off d : Z) :
  wrap (addr_at this off + d) = addr_at this (off + d).
Proof.
  unfold addr_at. rewrite wrap_wrap_add. f_equal. ring.
Qed.

Lemma ubyte_at_range (m : memory) (this off : Z) :
  0 <= ubyte_at m this off < 256.
Proof. apply Z_of_byte_range. Qed.

Lemma int_at_range (m : memory) (this off : Z) :
  - 2 ^ 31 <= int_at m this off < 2 ^ 31.
Proof. unfold int_at, cast_jint. apply (signed_range 32). lia. Qed.

(** The 32-bit word at an offset, from its four bytes in memory order. *)
Lemma int_at_bytes (m : memory) (this off : Z) :
  unsigned 32 (int_at m this off) =
  ubyte_at m this off + 2 ^ 8 * ubyte_at m this (off + 1)
  + 2 ^ 16 * ubyte_at m this (off + 2) + 2 ^ 24 * ubyte_at m this (off + 3).
Proof.
  unfold int_at, cast_jint. rewrite unsigned_signed by lia.
  pose proof (load_le_range 4 m (addr_at this off)) as Hr.
  unfold unsigned. rewrite Z.mod_small by exact Hr.
  rewrite load_le_4. unfold ubyte_at.
  rewrite !addr_at_wrap.
  replace (wrap (addr_at this off)) with (addr_at this off).
  - reflexivity.
  - unfold addr_at. symmetry. apply wrap_small, wrap_range.
Qed.

(** A 32-bit signed value survives being stored and loaded as a [jint]. *)
Lemma int_at_set_int_at (this off i : Z) (s : machine) :
  int_at (code (exec (set_int_at this off i) s)) this off = cast_jint i.
Proof.
  unfold set_int_at, exec, bind, store, wrote, int_at. cbn [snd code log].
  rewrite load_store_le_same by (cbn; lia).
  change (256 ^ Z.of_nat 4) with (2 ^ 32).
  unfold cast_jint. apply (signed_unsigned 32). lia.
Qed.

(** A 64-bit value survives being stored and loaded as an [intptr_t]. *)
Lemma ptr_at_set_ptr_at (this off x : Z) (s : machine) :
  ptr_at (code (exec (set_ptr_at this off x) s)) this off = cast_intptr x.
Proof.
  unfold set_ptr_at, exec, bind, store, wrote, ptr_at. cbn [snd code log].
  rewrite load_store_le_same by (cbn; lia).
  change (256 ^ Z.of_nat 8) with (2 ^ 64).
  unfold cast_intptr. apply (signed_unsigned 64). lia.
Qed.

(** A store of [n] bytes at offset [off] of a view leaves the bytes of the
    view below [off] as they were. *)
Lemma ubyte_at_store_above (m : memory) (this off k v : Z) (n : nat) :
  0 <= k < off -> off + Z.of_nat n <= 2 ^ 64 ->
  ubyte_at (store_le m (addr_at this off) n v) this k = ubyte_at m this k.
Proof.
  intros Hk Hn. unfold ubyte_at. f_equal.
  apply store_le_other. intros i Hi.
  rewrite addr_at_wrap. unfold addr_at.
  replace (this + (off + i)) with (this + k + (off + i - k)) by ring.
  apply wrap_add_neq. lia.
Qed.

Lemma wrap_add_signed (a x : Z) : wrap (a + signed 64 x) = wrap (a + x).
Proof.
  unfold wrap, address_bits.
  pose proof (unsigned_signed 64 x ltac:(lia)) as H.
  unfold unsigned in *.
  rewrite <- Zplus_mod_idemp_r, H, Zplus_mod_idemp_r. reflexivity.
Qed.

(** *** The log *)

Lemma hook_follows_stores_snoc (l : list event) (this : address) (off : Z)
    (w : nat) :
  hook_follows_stores l = true ->
  hook_follows_stores (l ++ [Store (addr_at this off) w; Wrote this off])
  = true.
Proof.
  induction l as [|e l IH]; intros Hl.
  - cbn. rewrite Z.eqb_refl. reflexivity.
  - destruct e as [a w' | this' off'].
    + destruct l as [|e' l']; [discriminate Hl|].
      destruct e' as [a' w'' | this'' off'']; [discriminate Hl|].
      cbn [hook_follows_stores] in Hl. apply andb_true_iff in Hl.
      destruct Hl as [Ha Hrest].
      change (hook_follows_stores
                (Store a w' :: Wrote this'' off'' ::
                   (l' ++ [Store (addr_at this off) w; Wrote this off]))
              = true).
      cbn [hook_follows_stores]. rewrite Ha. cbn [andb].
      apply (IH Hrest).
    + cbn [hook_follows_stores app] in *. apply IH, Hl.
Qed.

Lemma run_setter_effect (this : address) (call : setter_call) (s : machine) :
  exists (off : Z) (w : nat) (m' : memory),
    run_setter this call s =
    (Returned tt,
     {| code := m';
        log := log s ++ [Store (addr_at this off) w; Wrote this off] |}).
Proof.
  destruct call as [off c | off i | off p | off o]; exists off;
    [exists 1%nat | exists 4%nat | exists 8%nat | exists 8%nat];
    eexists; cbn; unfold bind, store, wrote; cbn;
    rewrite <- app_assoc; reflexivity.
Qed.

Lemma run_setters_disciplined (this : address) (calls : list setter_call) :
  forall s : machine,
    hook_follows_stores (log s) = true ->
    result (run_setters this calls) s = Returned tt /\
    hook_follows_stores (log (exec (run_setters this calls) s)) = true.
Proof.
  induction calls as [|call rest IH]; intros s Hs.
  - cbn. auto.
  - destruct (run_setter_effect this call s) as (off & w & m' & Hrun).
    unfold result, exec in *. cbn [run_setters]. unfold bind.
    rewrite Hrun. apply IH. cbn [log].
    apply hook_follows_stores_snoc, Hs.
Qed.

(** ** Calls: patching the displacement *)

Lemma ptr_diff_range (a b : address) : - 2 ^ 63 <= ptr_diff a b < 2 ^ 63.
Proof. unfold ptr_diff, cast_intptr. apply (signed_range 64). lia. Qed.

(** Between addresses of the lower half of the address space, the pointer
    difference is the mathematical one. *)
Lemma ptr_diff_exact (a b : address) :
  0 <= a < 2 ^ 63 -> 0 <= b < 2 ^ 63 -> ptr_diff a b = a - b.
Proof.
  intros Ha Hb. unfold ptr_diff, cast_intptr.
  apply signed_of_small; lia.
Qed.

(** The test of the guarantee is the test of the 32-bit signed range. *)
Lemma guarantee_test_fits (disp : Z) :
  - 2 ^ 63 <= disp < 2 ^ 63 ->
  (disp =? cast_intptr (cast_jint disp)) = fits_jint disp.
Proof.
  intros Hd.
  assert (Hj : - 2 ^ 31 <= cast_jint disp < 2 ^ 31)
    by (apply (signed_range 32); lia).
  assert (Hi : cast_intptr (cast_jint disp) = cast_jint disp)
    by (apply signed_of_small; lia).
  rewrite Hi.
  destruct (fits_jint disp) eqn:Hf.
  - apply fits_jint_spec in Hf. apply Z.eqb_eq. symmetry.
    apply signed_of_small; lia.
  - apply Z.eqb_neq. intros Heq.
    assert (Hfit : fits_jint disp = true)
      by (apply fits_jint_spec; rewrite Heq; exact Hj).
    congruence.
Qed.

(** C1. For every call view and every target address: when the
    displacement, the pointer difference of the target and the return
    address (the instruction address plus 5; between addresses of the lower
    half of the address space it is the plain difference), fits in 32 bits
    signed,
    [set_destination] returns and [destination] then gives the target back;
    when it does not fit, [set_destination] stops on the violated guarantee
    and leaves the code bytes and the log untouched, so no truncated
    displacement is written. *)
Theorem set_destination_then_destination
    (this dest : address) (s : machine) :
  0 <= dest < 2 ^ 64 ->
  let disp := ptr_diff dest (NativeCall.return_address this) in
  NativeCall.return_address this = wrap (this + 5) /\
  (0 <= this -> this + 5 < 2 ^ 63 -> dest < 2 ^ 63 ->
   disp = dest - (this + 5)) /\
  (fits_jint disp = true ->
   result (NativeCall.set_destination this dest) s = Returned tt /\
   NativeCall.destination
     (code (exec (NativeCall.set_destination this dest) s)) this = dest) /\
  (fits_jint disp = false ->
   NativeCall.set_destination this dest s
   = (Fatal "must be 32-bit offset", s)).
Proof.
  intros Hdest disp.
  pose proof (ptr_diff_range dest (NativeCall.return_address this)) as Hr.
  fold disp in Hr.
  split; [reflexivity|]. split.
  { intros Hlo Hhi Hd. unfold disp.
    assert (Hret : NativeCall.return_address this = this + 5).
    { unfold NativeCall.return_address, addr_at,
        NativeCall.return_address_offset.
      apply wrap_small. unfold address in *. lia. }
    rewrite Hret. apply ptr_diff_exact; unfold address in *; lia. }
  split; intros Hfit.
  - assert (Hrun : NativeCall.set_destination this dest s =
                   set_int_at this NativeCall.displacement_offset
                     (cast_jint disp) s).
    { unfold NativeCall.set_destination, bind, guarantee. fold disp.
      rewrite (guarantee_test_fits disp Hr), Hfit. reflexivity. }
    unfold result, exec. rewrite Hrun. split; [reflexivity|].
    unfold NativeCall.destination, NativeCall.displacement.
    fold (exec (set_int_at this NativeCall.displacement_offset
                  (cast_jint disp)) s).
    rewrite int_at_set_int_at.
    apply fits_jint_spec in Hfit.
    assert (Hc : cast_jint disp = disp) by (apply signed_of_small; lia).
    rewrite !Hc. unfold disp, ptr_diff, cast_intptr.
    rewrite wrap_add_signed.
    replace (NativeCall.return_address this
             + (dest - NativeCall.return_address this)) with dest
      by (unfold address in *; lia).
    apply wrap_small, Hdest.
  - unfold NativeCall.set_destination, bind, guarantee. fold disp.
    rewrite (guarantee_test_fits disp Hr), Hfit. reflexivity.
Qed.

(** ** Jumps: the jump-to-self sentinel *)

Lemma instruction_address_self (this : address) :
  0 <= this < 2 ^ 64 -> NativeJump.instruction_address this = this.
Proof.
  intros H. unfold NativeJump.instruction_address, addr_at,
    NativeJump.instruction_offset.
  rewrite Z.add_0_r. apply wrap_small, H.
Qed.

(** [jump_destination] answers -1 exactly for a jump to itself and for a
    jump whose displacement encodes the address -1 itself. *)
Lemma jump_destination_minus_one (m : memory) (this : address) :
  NativeJump.jump_destination m this = minus_one <->
  NativeJump.encoded_destination m this = this \/
  NativeJump.encoded_destination m this = minus_one.
Proof.
  unfold NativeJump.jump_destination.
  destruct (Z.eqb_spec (NativeJump.encoded_destination m this) this)
    as [Heq | Hne].
  - split; auto.
  - split; [auto | intros [H | H]; [contradiction | exact H]].
Qed.

(** C2, as the code has it. For every jump view at an address [this]:
    [jump_destination] returns the sentinel -1 if and only if the
    destination its displacement encodes (the 4-byte displacement at offset
    1 plus the next-instruction address) is the jump's own instruction
    address or is the address -1 itself; and [set_jump_destination(-1)]
    returns, writes the displacement -5, and a following
    [jump_destination] yields -1 again. *)
Theorem jump_destination_sentinel {bld : Build}
    (m : memory) (this : address) (s : machine) :
  0 <= this < 2 ^ 64 ->
  (NativeJump.jump_destination m this = minus_one <->
   NativeJump.encoded_destination m this = NativeJump.instruction_address this
   \/ NativeJump.encoded_destination m this = minus_one) /\
  result (NativeJump.set_jump_destination this minus_one) s = Returned tt /\
  int_at (code (exec (NativeJump.set_jump_destination this minus_one) s))
    this NativeJump.data_offset = -5 /\
  NativeJump.jump_destination
    (code (exec (NativeJump.set_jump_destination this minus_one) s)) this
  = minus_one.
Proof.
  intros Hthis.
  rewrite (instruction_address_self this Hthis).
  split; [apply jump_destination_minus_one|].
  assert (Hrun : NativeJump.set_jump_destination this minus_one s =
                 set_int_at this NativeJump.data_offset (-5) s).
  { unfold NativeJump.set_jump_destination, bind, assert_, guarantee, ret.
    rewrite Z.eqb_refl, orb_true_r.
    destruct ASSERT; reflexivity. }
  unfold result, exec. rewrite Hrun.
  fold (exec (set_int_at this NativeJump.data_offset (-5)) s).
  split; [reflexivity|].
  assert (Hint : int_at (code (exec (set_int_at this NativeJump.data_offset
                                       (-5)) s)) this NativeJump.data_offset
                 = -5).
  { rewrite int_at_set_int_at. reflexivity. }
  split; [exact Hint|].
  apply jump_destination_minus_one. left.
  unfold NativeJump.encoded_destination. rewrite Hint.
  unfold NativeJump.next_instruction_address, addr_at,
    NativeJump.next_instruction_offset.
  rewrite Z.add_comm, wrap_wrap_add.
  replace (this + 5 + -5) with this by (unfold address in *; lia).
  apply wrap_small, Hthis.
Qed.

(** C2 as it was claimed fails: a jump at 0x10000000 whose displacement is
    -0x10000006 encodes the address -1, so [jump_destination] returns the
    sentinel although the encoded destination is not the jump's own
    address. *)
Lemma jump_destination_sentinel_counterexample :
  let this := 0x10000000 in
  let m := of_bytes this [xe9; xfa; xff; xff; xef] in
  ~ (NativeJump.jump_destination m this = minus_one <->
     NativeJump.encoded_destination m this
     = NativeJump.instruction_address this).
Proof.
  intros this m [Hsentinel _].
  assert (Hself : NativeJump.encoded_destination m this
                  = NativeJump.instruction_address this)
    by (apply Hsentinel; vm_compute; reflexivity).
  vm_compute in Hself. discriminate Hself.
Qed.

(** ** Classifiers *)

Section ClassifierFacts.
Context {asm : Assembler}.

(** C4. For every code memory and address, [is_safepoint_poll] holds if and
    only if, with 2 bytes skipped when the first byte is the REX2 prefix,
    1 byte skipped when it is the REX.B prefix and none otherwise, the byte
    at the resulting offset is the test opcode 0x85 and the byte after it,
    masked with 0x38, is 0x00 (rax). *)
Theorem is_safepoint_poll_iff (m : memory) (this : address) :
  Classifier.is_safepoint_poll m this = true <->
  exists skip : Z,
    poll_prefix_skip (ubyte_at m this 0) skip /\
    ubyte_at m this skip = 0x85 /\
    Z.land (ubyte_at m this (skip + 1)) 0x38 = 0x00.
Proof.
  unfold Classifier.is_safepoint_poll, has_rex2_prefix,
    NativeTstRegMem.instruction_rex_b_prefix,
    NativeTstRegMem.instruction_code_memXregl,
    NativeTstRegMem.modrm_mask, NativeTstRegMem.modrm_reg.
  destruct (Z.eqb_spec (ubyte_at m this 0) REX2) as [H2 | H2];
    [| destruct (Z.eqb_spec (ubyte_at m this 0) REX_B) as [Hb | Hb]];
    rewrite andb_true_iff, !Z.eqb_eq.
  - split.
    + intros [Hop Hrm]. exists 2. auto using skip_rex2.
    + intros (skip & Hskip & Hop & Hrm).
      inversion Hskip; subst; try contradiction; auto.
  - split.
    + intros [Hop Hrm]. exists 1. auto using skip_rex_b.
    + intros (skip & Hskip & Hop & Hrm).
      inversion Hskip; subst; try contradiction; auto.
  - split.
    + intros [Hop Hrm]. exists 0. auto using skip_none.
    + intros (skip & Hskip & Hop & Hrm).
      inversion Hskip; subst; try contradiction; auto.
Qed.

(** C8. For every code memory and address, [is_call_reg] holds if and only
    if the first byte is the indirect-call opcode 0xFF, or the first byte is
    the REX or the REX.B prefix and the byte after it is 0xFF. *)
Theorem is_call_reg_iff (m : memory) (this : address) :
  Classifier.is_call_reg m this = true <->
  call_reg_shape (ubyte_at m this 0) (ubyte_at m this 1).
Proof.
  unfold Classifier.is_call_reg, call_reg_shape,
    NativeCallReg.instruction_code.
  rewrite orb_true_iff, andb_true_iff, orb_true_iff, !Z.eqb_eq.
  tauto.
Qed.

(** C7. For every immediate-load view: the size and the next-instruction
    offset are 11 and the data offset is 3 when the first byte is the REX2
    prefix, and they are 10 and 2 otherwise; and after [set_data(x)] the
    first byte, hence the layout, is unchanged, the 8 bytes at the data
    offset of that layout hold [x], and [data()] returns [x]. *)
Theorem mov_const_reg_layout_and_data
    (this : address) (x : Z) (s : machine) :
  min_intptr <= x <= max_intptr ->
  let m := code s in
  let rex2 := ubyte_at m this 0 =? REX2 in
  let m' := code (exec (NativeMovConstReg.set_data this x) s) in
  NativeMovConstReg.instruction_size m this = (if rex2 then 11 else 10) /\
  NativeMovConstReg.next_inst_offset m this = (if rex2 then 11 else 10) /\
  NativeMovConstReg.data_byte_offset m this = (if rex2 then 3 else 2) /\
  result (NativeMovConstReg.set_data this x) s = Returned tt /\
  ubyte_at m' this 0 = ubyte_at m this 0 /\
  ptr_at m' this (if rex2 then 3 else 2) = x /\
  NativeMovConstReg.data m' this = x.
Proof.
  intros Hx m rex2 m'.
  assert (Hoff : NativeMovConstReg.data_byte_offset m this
                 = if rex2 then 3 else 2).
  { unfold NativeMovConstReg.data_byte_offset, has_rex2_prefix. fold rex2.
    destruct rex2; reflexivity. }
  assert (Hrun : NativeMovConstReg.set_data this x s
                 = set_ptr_at this (if rex2 then 3 else 2) x s).
  { unfold NativeMovConstReg.set_data. fold m. rewrite Hoff. reflexivity. }
  assert (Hfirst : ubyte_at m' this 0 = ubyte_at m this 0).
  { unfold m', exec. rewrite Hrun.
    unfold set_ptr_at, bind, store, wrote. cbn [snd code log]. fold m.
    apply ubyte_at_store_above; destruct rex2; cbn; lia. }
  assert (Hptr : ptr_at m' this (if rex2 then 3 else 2) = x).
  { unfold m', exec. rewrite Hrun.
    fold (exec (set_ptr_at this (if rex2 then 3 else 2) x) s).
    rewrite ptr_at_set_ptr_at. unfold cast_intptr.
    apply signed_of_small; unfold min_intptr, max_intptr in Hx; lia. }
  repeat apply conj.
  - unfold NativeMovConstReg.instruction_size, has_rex2_prefix. fold rex2.
    destruct rex2; reflexivity.
  - unfold NativeMovConstReg.next_inst_offset, has_rex2_prefix. fold rex2.
    destruct rex2; reflexivity.
  - exact Hoff.
  - unfold result. rewrite Hrun. reflexivity.
  - exact Hfirst.
  - exact Hptr.
  - unfold NativeMovConstReg.data, NativeMovConstReg.data_byte_offset,
      has_rex2_prefix.
    rewrite Hfirst. fold rex2.
    destruct rex2; exact Hptr.
Qed.

End ClassifierFacts.

(** ** The post-call metadata slot *)

(** The payload word of the slot, read unsigned. *)
Lemma payload_zero_iff (m : memory) (this : address) :
  int_at m this NativePostCallNop.displacement_offset = 0 <->
  unsigned 32 (int_at m this NativePostCallNop.displacement_offset) = 0.
Proof.
  pose proof (int_at_range m this NativePostCallNop.displacement_offset) as Hr.
  unfold unsigned. split.
  - intros ->. reflexivity.
  - intros H. apply Z.mod_divide in H; [| lia].
    destruct H as [q Hq]. lia.
Qed.

Lemma decode_present (m : memory) (this : address) (slot0 off0 : Z) :
  int_at m this NativePostCallNop.displacement_offset <> 0 ->
  let payload :=
    unsigned 32 (int_at m this NativePostCallNop.displacement_offset) in
  NativePostCallNop.decode m this slot0 off0
  = (true, (payload / 2 ^ 24, payload mod 2 ^ 24)).
Proof.
  intros Hnz payload.
  pose proof (int_at_range m this NativePostCallNop.displacement_offset) as Hr.
  unfold NativePostCallNop.decode.
  set (d := int_at m this NativePostCallNop.displacement_offset) in *.
  assert (Hd : cast_jint d = d) by (apply signed_of_small; lia).
  rewrite Hd. destruct (Z.eqb_spec d 0) as [Hz | _]; [contradiction|].
  change 0xffffff with (Z.ones 24). change 0xff with (Z.ones 8).
  rewrite Z.shiftr_div_pow2, !Z.land_ones by lia.
  assert (Hp : 0 <= payload < 2 ^ 32) by (apply unsigned_range; lia).
  assert (Hlow : d mod 2 ^ 24 = payload mod 2 ^ 24).
  { unfold payload, unsigned.
    change (2 ^ 32) with 4294967296. change (2 ^ 24) with 16777216.
    Z.div_mod_to_equations. lia. }
  assert (Hhigh : (d / 2 ^ 24) mod 2 ^ 8 = payload / 2 ^ 24).
  { unfold payload, unsigned.
    change (2 ^ 32) with 4294967296. change (2 ^ 24) with 16777216.
    change (2 ^ 8) with 256.
    Z.div_mod_to_equations. lia. }
  rewrite Hlow, Hhigh.
  assert (Hc1 : cast_jint (payload mod 2 ^ 24) = payload mod 2 ^ 24).
  { apply signed_of_small; [lia|].
    pose proof (Z.mod_pos_bound payload (2 ^ 24) ltac:(lia)). lia. }
  assert (Hc2 : cast_jint (payload / 2 ^ 24) = payload / 2 ^ 24).
  { apply signed_of_small; [lia|].
    assert (0 <= payload / 2 ^ 24 < 2 ^ 8).
    { split; [apply Z.div_pos; lia|].
      apply Z.div_lt_upper_bound; lia. }
    lia. }
  rewrite Hc1, Hc2. reflexivity.
Qed.

(** C10. When the payload word of the slot is zero, [decode] returns false
    and hands both reference parameters back with the values they had at
    the call, whatever these were. *)
Theorem decode_absent_keeps_out_parameters
    (m : memory) (this : address) (oopmap_slot cb_offset : Z) :
  int_at m this NativePostCallNop.displacement_offset = 0 ->
  NativePostCallNop.decode m this oopmap_slot cb_offset
  = (false, (oopmap_slot, cb_offset)).
Proof.
  intros Hz. unfold NativePostCallNop.decode. rewrite Hz. reflexivity.
Qed.

(** C5. For every 4-byte payload word of a slot: the all-zero payload
    decodes to false, "absent"; every other payload decodes to true with
    [cb_offset] the bits 0-23 and [oopmap_slot] the bits 24-31 of the word;
    and the payload (5<<24)|0x123 decodes to [cb_offset] 0x123 and
    [oopmap_slot] 0x05. *)
Theorem decode_payload (m : memory) (this : address) (slot0 off0 : Z) :
  let payload :=
    unsigned 32 (int_at m this NativePostCallNop.displacement_offset) in
  NativePostCallNop.decode m this slot0 off0
  = (if payload =? 0 then (false, (slot0, off0))
     else (true, (payload / 2 ^ 24, payload mod 2 ^ 24)))
  /\ fst (NativePostCallNop.decode
            (of_bytes 4096 [x0f; x1f; x84; x00; x00; x00; x00; x00]) 4096
            slot0 off0) = false
  /\ NativePostCallNop.decode
       (of_bytes 4096 [x0f; x1f; x84; x00; x23; x01; x00; x05]) 4096
       slot0 off0
     = (true, (0x05, 0x000123))
  /\ load_le (of_bytes 4096 [x0f; x1f; x84; x00; x23; x01; x00; x05])
       (4096 + 4) 4
     = Z.lor (Z.shiftl 5 24) 0x123.
Proof.
  intros payload. split; [| split; [| split]].
  - destruct (Z.eqb_spec payload 0) as [Hz | Hnz].
    + apply payload_zero_iff in Hz. unfold NativePostCallNop.decode.
      rewrite Hz. reflexivity.
    + apply decode_present. intros Hz. apply Hnz.
      apply payload_zero_iff, Hz.
  - reflexivity.
  - reflexivity.
  - reflexivity.
Qed.

(** The check word, byte by byte. *)
Lemma check_bytes (m : memory) (this : address) :
  NativePostCallNop.check m this = true <->
  ubyte_at m this 0 = 0x0F /\ ubyte_at m this 1 = 0x1F /\
  ubyte_at m this 2 = 0x84 /\ ubyte_at m this 3 = 0x00.
Proof.
  unfold NativePostCallNop.check. rewrite Z.eqb_eq.
  pose proof (int_at_range m this 0) as Hr.
  pose proof (int_at_bytes m this 0) as Hb.
  change (0 + 1) with 1 in Hb. change (0 + 2) with 2 in Hb.
  change (0 + 3) with 3 in Hb.
  pose proof (ubyte_at_range m this 0).
  pose proof (ubyte_at_range m this 1).
  pose proof (ubyte_at_range m this 2).
  pose proof (ubyte_at_range m this 3).
  change (2 ^ 8) with 256 in Hb. change (2 ^ 16) with 65536 in Hb.
  change (2 ^ 24) with 16777216 in Hb.
  change (- 2 ^ 31) with (-2147483648) in Hr.
  change (2 ^ 31) with 2147483648 in Hr.
  unfold unsigned in Hb. change (2 ^ 32) with 4294967296 in Hb.
  split.
  - intros Heq. rewrite Heq in Hb.
    change (8658703 mod 4294967296) with 8658703 in Hb. lia.
  - intros (E0 & E1 & E2 & E3). rewrite E0, E1, E2, E3 in Hb.
    destruct (Z_lt_le_dec (int_at m this 0) 0) as [Hneg | Hnn].
    + assert (Hm : int_at m this 0 mod 4294967296
                   = int_at m this 0 + 4294967296)
        by (symmetry; apply (Z.mod_unique_pos _ _ (-1)); lia).
      lia.
    + rewrite Z.mod_small in Hb by lia. exact Hb.
Qed.

(** C6, as the code has it. For every code memory and address, [check]
    succeeds exactly when the 4 bytes at offset 0 are 0x0F, 0x1F, 0x84,
    0x00 in memory order (the 32-bit word 0x00841F0F);
    [nativePostCallNop_at] returns the view when the check succeeds and null
    otherwise. *)
Theorem post_call_nop_check_word (m : memory) (a : address) :
  (NativePostCallNop.check m a = true <->
   ubyte_at m a 0 = 0x0F /\ ubyte_at m a 1 = 0x1F /\
   ubyte_at m a 2 = 0x84 /\ ubyte_at m a 3 = 0x00) /\
  (NativePostCallNop.nativePostCallNop_at m a = Some a <->
   NativePostCallNop.check m a = true) /\
  (NativePostCallNop.nativePostCallNop_at m a = None <->
   NativePostCallNop.check m a = false).
Proof.
  split; [apply check_bytes|].
  unfold NativePostCallNop.nativePostCallNop_at.
  destruct (NativePostCallNop.check m a); split; split;
    intros H; try reflexivity; discriminate H.
Qed.

(** C6 as it was claimed fails: the three pattern bytes followed by a
    non-zero fourth byte do not pass the check. *)
Lemma post_call_nop_check_counterexample :
  let a := 4096 in
  let m := of_bytes a [x0f; x1f; x84; x01; x00; x00; x00; x00] in
  ~ (NativePostCallNop.check m a = true <->
     ubyte_at m a 0 = 0x0F /\ ubyte_at m a 1 = 0x1F /\ ubyte_at m a 2 = 0x84).
Proof.
  intros a m [_ Hpattern].
  assert (Hcheck : NativePostCallNop.check m a = true)
    by (apply Hpattern; repeat split; reflexivity).
  vm_compute in Hcheck. discriminate Hcheck.
Qed.

(** ** The write discipline *)

Lemma setter_runs (this : address) (offset v : Z) (w : nat) (s : machine) :
  bind (store (addr_at this offset) w v) (fun _ => wrote this offset) s
  = (Returned tt,
     {| code := store_le (code s) (addr_at this offset) w v;
        log := log s ++ [Store (addr_at this offset) w; Wrote this offset] |}).
Proof.
  unfold bind, store, wrote. cbn [code log].
  rewrite <- app_assoc. reflexivity.
Qed.

(** C9. Every mutating accessor of the view ([set_char_at], [set_int_at],
    [set_ptr_at], [set_oop_at]), at every offset and for every value,
    performs its store and then calls [wrote(offset)], and nothing else; so
    in the log of any sequence of setter calls every store is directly
    followed by the hook for the stored address. *)
Theorem setters_store_then_wrote (this : address) (offset v : Z) (s : machine) :
  let a := addr_at this offset in
  let after (w : nat) :=
    (Returned tt,
     {| code := store_le (code s) a w v;
        log := log s ++ [Store a w; Wrote this offset] |}) in
  set_char_at this offset v s = after 1%nat /\
  set_int_at this offset v s = after 4%nat /\
  set_ptr_at this offset v s = after 8%nat /\
  set_oop_at this offset v s = after 8%nat /\
  forall (m : memory) (calls : list setter_call),
    result (run_setters this calls) (boot m) = Returned tt /\
    hook_follows_stores (log (exec (run_setters this calls) (boot m))) = true.
Proof.
  intros a after.
  split; [apply setter_runs|].
  split; [apply setter_runs|].
  split; [apply setter_runs|].
  split; [apply setter_runs|].
  intros m calls. apply run_setters_disciplined. reflexivity.
Qed.

(** ** The model on concrete code *)

(** [test %eax, (%r10)], with the REX.B prefix: a safepoint poll. *)
Example poll_with_rex_b :
  Classifier.is_safepoint_poll (of_bytes 4096 [x41; x85; x02]) 4096 = true.
Proof. reflexivity. Qed.

(** The same poll behind a REX2 prefix and without any prefix. *)
Example poll_with_rex2_and_bare :
  Classifier.is_safepoint_poll (of_bytes 4096 [xd5; x10; x85; x02]) 4096 = true
  /\ Classifier.is_safepoint_poll (of_bytes 4096 [x85; x00]) 4096 = true
  /\ Classifier.is_safepoint_poll (of_bytes 4096 [x85; x08]) 4096 = false.
Proof. repeat split. Qed.

(** [call *%rax] and [call *%r10]. *)
Example call_reg_shapes :
  Classifier.is_call_reg (of_bytes 4096 [xff; xd0]) 4096 = true
  /\ Classifier.is_call_reg (of_bytes 4096 [x41; xff; xd2]) 4096 = true
  /\ Classifier.is_call_reg (of_bytes 4096 [x48; xff; xd0]) 4096 = false.
Proof. repeat split. Qed.

(** [mov $imm64, %rax] in both encodings. *)
Example mov_literal64_shapes :
  Classifier.is_mov_literal64
    (of_bytes 4096 [x48; xb8; x88; x77; x66; x55; x44; x33; x22; x11]) 4096
  = true
  /\ Classifier.is_mov_literal64
       (of_bytes 4096 [xd5; x08; xb8; x88; x77; x66; x55; x44; x33; x22; x11])
       4096
     = true.
Proof. repeat split. Qed.

Lemma set_destination_then_destination_witness :
  let this := 0x7f0000001000 in
  let s := boot (of_bytes this [xe8; x00; x00; x00; x00]) in
  NativeCall.destination
    (code (exec (NativeCall.set_destination this 0x7f0000402000) s)) this
  = 0x7f0000402000
  /\ NativeCall.set_destination this 0x7fff00000000 s
     = (Fatal "must be 32-bit offset", s).
Proof.
  intros this s. split.
  - destruct (set_destination_then_destination this 0x7f0000402000 s
                ltac:(lia)) as (_ & _ & Hfits & _).
    apply Hfits. reflexivity.
  - destruct (set_destination_then_destination this 0x7fff00000000 s
                ltac:(lia)) as (_ & _ & _ & Hfails).
    apply Hfails. reflexivity.
Defined.

Lemma jump_destination_sentinel_witness :
  let this := 0x7f0000001000 in
  let s := boot (of_bytes this [xe9; x10; x00; x00; x00]) in
  NativeJump.jump_destination
    (code (exec (@NativeJump.set_jump_destination checked_build
                   this minus_one) s)) this
  = minus_one.
Proof.
  intros this s.
  destruct (@jump_destination_sentinel checked_build (code s) this s
              ltac:(lia)) as (_ & _ & _ & Hagain).
  exact Hagain.
Defined.

Lemma mov_const_reg_layout_and_data_witness :
  let this := 4096 in
  let rex := boot (of_bytes this
                     [x48; xb8; x00; x00; x00; x00; x00; x00; x00; x00]) in
  let rex2 := boot (of_bytes this
                      [xd5; x08; xb8; x00; x00; x00; x00; x00; x00; x00; x00])
  in
  let x := 0x1122334455667788 in
  (NativeMovConstReg.instruction_size (code rex) this = 10 /\
   NativeMovConstReg.data
     (code (exec (NativeMovConstReg.set_data this x) rex)) this = x) /\
  (NativeMovConstReg.instruction_size (code rex2) this = 11 /\
   NativeMovConstReg.data
     (code (exec (NativeMovConstReg.set_data this x) rex2)) this = x).
Proof.
  intros this rex rex2 x. split.
  - destruct (mov_const_reg_layout_and_data this x rex)
      as (Hsize & _ & _ & _ & _ & _ & Hdata).
    + unfold min_intptr, max_intptr, x. lia.
    + split; [exact Hsize | exact Hdata].
  - destruct (mov_const_reg_layout_and_data this x rex2)
      as (Hsize & _ & _ & _ & _ & _ & Hdata).
    + unfold min_intptr, max_intptr, x. lia.
    + split; [exact Hsize | exact Hdata].
Defined.

Lemma decode_absent_keeps_out_parameters_witness :
  NativePostCallNop.decode
    (of_bytes 4096 [x0f; x1f; x84; x00; x00; x00; x00; x00]) 4096 7 9
  = (false, (7, 9)).
Proof.
  apply decode_absent_keeps_out_parameters. reflexivity.
Defined.

(** ** Further facts: the classifiers, byte by byte *)

(** A mask below 256 only sees the low byte. *)
Lemma land_byte_mask (x mask : Z) :
  0 <= mask < 256 -> Z.land x mask = Z.land (x mod 256) mask.
Proof.
  intros Hm.
  assert (Hmask : Z.land (Z.ones 8) mask = mask).
  { rewrite Z.land_comm, Z.land_ones by lia.
    apply Z.mod_small. change (2 ^ 8) with 256. lia. }
  rewrite <- Hmask at 1.
  rewrite Z.land_assoc, Z.land_ones by lia. reflexivity.
Qed.

Lemma land_byte_full (b : Z) : 0 <= b < 256 -> Z.land b 0xFF = b.
Proof.
  intros Hb. change 0xFF with (Z.ones 8). rewrite Z.land_ones by lia.
  apply Z.mod_small. change (2 ^ 8) with 256. lia.
Qed.

(** The mask of the long conditional jump, split over the two low bytes. *)
Lemma land_F0FF (d : Z) :
  Z.land d 0xF0FF = d mod 256 + 256 * Z.land ((d / 256) mod 256) 0xF0.
Proof.
  rewrite (Z.div_mod (Z.land d 0xF0FF) 256) by lia.
  assert (Hlow : Z.land d 0xF0FF mod 256 = d mod 256).
  { change 256 with (2 ^ 8). rewrite <- !Z.land_ones by lia.
    rewrite <- Z.land_assoc. reflexivity. }
  assert (Hhigh : Z.land d 0xF0FF / 256 = Z.land ((d / 256) mod 256) 0xF0).
  { change 256 with (2 ^ 8) at 1. rewrite <- Z.shiftr_div_pow2 by lia.
    rewrite Z.shiftr_land. change (Z.shiftr 0xF0FF 8) with 0xF0.
    rewrite Z.shiftr_div_pow2 by lia. change (2 ^ 8) with 256.
    apply land_byte_mask. lia. }
  rewrite Hlow, Hhigh. ring.
Qed.

(** The two low bytes of the word at an offset are the first two bytes in
    memory. *)
Lemma int_at_low_bytes (m : memory) (this off : Z) :
  int_at m this off mod 256 = ubyte_at m this off /\
  (int_at m this off / 256) mod 256 = ubyte_at m this (off + 1).
Proof.
  pose proof (int_at_bytes m this off) as Hb.
  pose proof (ubyte_at_range m this off).
  pose proof (ubyte_at_range m this (off + 1)).
  pose proof (ubyte_at_range m this (off + 2)).
  pose proof (ubyte_at_range m this (off + 3)).
  unfold unsigned in Hb.
  change (2 ^ 32) with 4294967296 in Hb. change (2 ^ 8) with 256 in Hb.
  change (2 ^ 16) with 65536 in Hb. change (2 ^ 24) with 16777216 in Hb.
  split; Z.div_mod_to_equations; lia.
Qed.

Lemma signed_eq_iff (w a b : Z) :
  0 < w -> (signed w a = signed w b <-> unsigned w a = unsigned w b).
Proof.
  intros Hw. split; intros H.
  - rewrite <- (unsigned_signed w a), <- (unsigned_signed w b) by lia.
    rewrite H. reflexivity.
  - unfold signed. rewrite H. reflexivity.
Qed.

Lemma cond_jump_shape (m : memory) (this : address) :
  Classifier.is_cond_jump m this = true <->
  (ubyte_at m this 0 = 0x0F /\ Z.land (ubyte_at m this 1) 0xF0 = 0x80)
  \/ Z.land (ubyte_at m this 0) 0xF0 = 0x70.
Proof.
  unfold Classifier.is_cond_jump.
  rewrite orb_true_iff, !Z.eqb_eq, land_F0FF.
  destruct (int_at_low_bytes m this 0) as [H0 H1].
  change (0 + 1) with 1 in H1. rewrite H0, H1.
  pose proof (ubyte_at_range m this 0) as Hr0.
  split; (intros [Hlong | Hshort]; [left | right; exact Hshort]); lia.
Qed.

(** X1. [is_cond_jump] accepts exactly the two shapes of a conditional
    jump: the bytes 0x0F 0x8x of the long form, or a first byte 0x7x of the
    short form. *)
Theorem is_cond_jump_bytes (m : memory) (this : address) :
  Classifier.is_cond_jump m this = true <->
  (ubyte_at m this 0 = 0x0F /\ Z.land (ubyte_at m this 1) 0xF0 = 0x80)
  \/ Z.land (ubyte_at m this 0) 0xF0 = 0x70.
Proof. exact (cond_jump_shape m this). Qed.

Lemma illegal_shape (m : memory) (this : address) :
  Classifier.is_illegal m this = true <->
  ubyte_at m this 0 = 0x0F /\ ubyte_at m this 1 = 0x0B.
Proof.
  unfold Classifier.is_illegal, cast_short. rewrite Z.eqb_eq.
  rewrite (signed_eq_iff 16) by lia. unfold unsigned.
  destruct (int_at_low_bytes m this 0) as [H0 H1].
  change (0 + 1) with 1 in H1.
  pose proof (ubyte_at_range m this 0).
  pose proof (ubyte_at_range m this 1).
  unfold NativeIllegalInstruction.instruction_code.
  change (2 ^ 16) with 65536. change (0x0B0F mod 65536) with 0x0B0F.
  rewrite <- H0, <- H1 in *.
  split; intros Hyp; Z.div_mod_to_equations; lia.
Qed.

(** X2. [is_illegal] accepts exactly the byte pair 0x0F 0x0B. *)
Theorem is_illegal_bytes (m : memory) (this : address) :
  Classifier.is_illegal m this = true <->
  ubyte_at m this 0 = 0x0F /\ ubyte_at m this 1 = 0x0B.
Proof. exact (illegal_shape m this). Qed.

Lemma is_deopt_at_bytes (m : memory) (this : address) :
  NativeDeoptInstruction.is_deopt_at m (addr_at this 0) = true <->
  ubyte_at m this 0 = 0x0F /\ ubyte_at m this 1 = 0xFF.
Proof.
  unfold NativeDeoptInstruction.is_deopt_at,
    NativeDeoptInstruction.instruction_prefix,
    NativeDeoptInstruction.instruction_code.
  rewrite addr_at_wrap. change (0 + 1) with 1.
  fold (ubyte_at m this 0). fold (ubyte_at m this 1).
  rewrite !land_byte_full by apply ubyte_at_range.
  rewrite andb_true_iff, !Z.eqb_eq. reflexivity.
Qed.

(** X3. At one address at most one of these eight recognisers answers
    true: nop, direct call, return, jump, conditional jump, illegal
    instruction, deoptimization trap, post-call nop.  A byte sequence is
    never, say, both a call and a return. *)
Theorem classifiers_exclusive (m : memory) (this : address) :
  (List.length
     (List.filter (fun b : bool => b)
        [is_nop m this;
         Classifier.is_call m this;
         Classifier.is_return m this;
         Classifier.is_jump m this;
         Classifier.is_cond_jump m this;
         Classifier.is_illegal m this;
         NativeDeoptInstruction.is_deopt_at m (addr_at this 0);
         NativePostCallNop.check m this]) <= 1)%nat.
Proof.
  assert (Hnop : is_nop m this = true -> ubyte_at m this 0 = 0x90)
    by (unfold is_nop; apply Z.eqb_eq).
  assert (Hcall : Classifier.is_call m this = true -> ubyte_at m this 0 = 0xE8)
    by (unfold Classifier.is_call; apply Z.eqb_eq).
  assert (Hret : Classifier.is_return m this = true ->
                 ubyte_at m this 0 = 0xC3 \/ ubyte_at m this 0 = 0xC2).
  { unfold Classifier.is_return. rewrite orb_true_iff, !Z.eqb_eq. auto. }
  assert (Hjmp : Classifier.is_jump m this = true ->
                 ubyte_at m this 0 = 0xE9 \/ ubyte_at m this 0 = 0xEB).
  { unfold Classifier.is_jump. rewrite orb_true_iff, !Z.eqb_eq. auto. }
  pose proof (proj1 (cond_jump_shape m this)) as Hcond.
  pose proof (proj1 (illegal_shape m this)) as Hill.
  pose proof (proj1 (is_deopt_at_bytes m this)) as Hdeopt.
  pose proof (proj1 (check_bytes m this)) as Hchk.
  set (b0 := ubyte_at m this 0) in *. set (b1 := ubyte_at m this 1) in *.
  clearbody b0 b1.
  destruct (is_nop m this), (Classifier.is_call m this),
    (Classifier.is_return m this), (Classifier.is_jump m this),
    (Classifier.is_cond_jump m this), (Classifier.is_illegal m this),
    (NativeDeoptInstruction.is_deopt_at m (addr_at this 0)),
    (NativePostCallNop.check m this);
    cbn [List.filter List.length]; try lia; exfalso;
    repeat match goal with
           | H : true = true -> _ |- _ => specialize (H eq_refl)
           | H : false = true -> _ |- _ => clear H
           end;
    repeat match goal with
           | H : _ /\ _ |- _ => destruct H
           | H : _ \/ _ |- _ => destruct H
           end;
    subst; try discriminate; try lia.
Qed.

(** X4. Whatever [is_jump_reg] accepts, [is_call_reg] accepts too: the
    call recogniser looks at the opcode 0xFF only, not at the ModRM byte
    that tells an indirect jump from an indirect call. *)
Theorem is_jump_reg_is_call_reg {asm : Assembler}
    (m : memory) (this : address) :
  Classifier.is_jump_reg m this = true ->
  Classifier.is_call_reg m this = true.
Proof.
  unfold Classifier.is_jump_reg, Classifier.is_call_reg,
    NativeCallReg.instruction_code.
  destruct (Z.eqb_spec (ubyte_at m this 0) REX_B) as [Hb | Hb].
  - rewrite andb_true_iff, !Z.eqb_eq. intros [Hop _].
    rewrite Hop, Hb, !Z.eqb_refl, orb_true_r, orb_true_r. reflexivity.
  - rewrite andb_true_iff, !Z.eqb_eq. intros [Hop _].
    rewrite Hop. reflexivity.
Qed.

Lemma is_jump_reg_is_call_reg_witness :
  Classifier.is_call_reg (of_bytes 4096 [x41; xff; xe2]) 4096 = true.
Proof.
  apply is_jump_reg_is_call_reg. reflexivity.
Defined.

(** ** Further facts: indirect calls and direct calls *)

(** X5. On every instruction [is_call_reg] accepts, and for prefix values
    that keep REX2 apart from REX and REX.B and put REX and REX.B in the
    0x4x range, [NativeCallReg::next_instruction_offset] returns without
    tripping its assertion: 2 for the bare opcode, 3 behind a prefix. *)
Theorem call_reg_next_instruction_offset {asm : Assembler} {bld : Build}
    (m : memory) (this : address) :
  REX2 <> REX -> REX2 <> REX_B ->
  Z.land REX 0xF0 = REX -> Z.land REX_B 0xF0 = REX ->
  Classifier.is_call_reg m this = true ->
  NativeCallReg.next_instruction_offset m this
  = Returned (if ubyte_at m this 0 =? 0xFF then 2 else 3).
Proof.
  intros Hx Hxb Hrex Hrexb.
  unfold Classifier.is_call_reg, NativeCallReg.next_instruction_offset,
    NativeCallReg.instruction_code, has_rex2_prefix.
  destruct (Z.eqb_spec (ubyte_at m this 0) 0xFF) as [Hff | Hff];
    [reflexivity|].
  rewrite orb_false_l, andb_true_iff, orb_true_iff, !Z.eqb_eq.
  intros [_ [Hp | Hp]]; rewrite Hp.
  - destruct (Z.eqb_spec REX REX2); [congruence|].
    rewrite Hrex, Z.eqb_refl, andb_false_r. reflexivity.
  - destruct (Z.eqb_spec REX_B REX2); [congruence|].
    rewrite Hrexb, Z.eqb_refl, andb_false_r. reflexivity.
Qed.

Lemma call_reg_next_instruction_offset_witness :
  @NativeCallReg.next_instruction_offset x86_64 checked_build
    (of_bytes 4096 [x41; xff; xd2]) 4096
  = Returned 3.
Proof.
  apply (@call_reg_next_instruction_offset x86_64 checked_build
           (of_bytes 4096 [x41; xff; xd2]) 4096);
    try reflexivity; discriminate.
Defined.



(** A word store through the view changes the four bytes at its offset and
    no other byte. *)
Lemma set_int_at_frame (this off i : Z) (s : machine) (p : address) :
  (forall k, 0 <= k < 4 -> p <> addr_at this (off + k)) ->
  code (exec (set_int_at this off i) s) p = code s p.
Proof.
  intros Hout. unfold set_int_at, exec. rewrite setter_runs. cbn [snd code].
  apply store_le_other. intros k Hk. rewrite addr_at_wrap.
  intros Heq. apply (Hout k); [exact Hk | congruence].
Qed.

Lemma set_int_at_first_byte (this i : Z) (s : machine) :
  ubyte_at (code (exec (set_int_at this 1 i) s)) this 0
  = ubyte_at (code s) this 0.
Proof.
  unfold set_int_at, exec. rewrite setter_runs. cbn [snd code].
  apply ubyte_at_store_above; cbn; lia.
Qed.

(** [set_destination] either stops at its guarantee, leaving the machine
    as it is, or is the store of the displacement. *)
Lemma set_destination_cases (this dest : address) (s : machine) :
  exec (NativeCall.set_destination this dest) s = s \/
  exists i, exec (NativeCall.set_destination this dest) s
            = exec (set_int_at this NativeCall.displacement_offset i) s.
Proof.
  unfold exec, NativeCall.set_destination, bind, guarantee.
  destruct (_ =? _).
  - right. eexists. reflexivity.
  - left. reflexivity.
Qed.

(** X7. [set_destination], whether it returns or stops at its guarantee,
    changes no byte outside the four displacement bytes at offsets 1..4; in
    particular the opcode byte stays, and a call stays a call. *)
Theorem set_destination_frame (this dest : address) (s : machine) :
  (forall p : address,
      (forall k, 0 <= k < 4 -> p <> addr_at this (1 + k)) ->
      code (exec (NativeCall.set_destination this dest) s) p = code s p) /\
  Classifier.is_call (code (exec (NativeCall.set_destination this dest) s))
    this
  = Classifier.is_call (code s) this.
Proof.
  destruct (set_destination_cases this dest s) as [Hsame | [i Hstore]].
  - rewrite Hsame. split; reflexivity.
  - rewrite Hstore. split.
    + intros p Hout. apply set_int_at_frame. exact Hout.
    + unfold Classifier.is_call, NativeCall.displacement_offset.
      rewrite set_int_at_first_byte. reflexivity.
Qed.

(** ** Further facts: patching a jump *)

(** The high-half mask of the assertion in [set_jump_destination]. *)
Lemma land_high_half (x : Z) :
  0 <= x < 2 ^ 64 ->
  (Z.land x 0xFFFFFFFF00000000 =? 0) = (x <? 2 ^ 32).
Proof.
  intros Hx.
  assert (Hlow : Z.land x 0xFFFFFFFF00000000 mod 2 ^ 32 = 0).
  { rewrite <- Z.land_ones, <- Z.land_assoc by lia.
    change (Z.land 0xFFFFFFFF00000000 (Z.ones 32)) with 0.
    apply Z.land_0_r. }
  assert (Hhigh : Z.land x 0xFFFFFFFF00000000 / 2 ^ 32 = x / 2 ^ 32).
  { rewrite <- Z.shiftr_div_pow2, Z.shiftr_land by lia.
    change (Z.shiftr 0xFFFFFFFF00000000 32) with (Z.ones 32).
    rewrite Z.land_ones, Z.shiftr_div_pow2 by lia.
    apply Z.mod_small. split.
    - apply Z.div_pos; lia.
    - apply Z.div_lt_upper_bound; lia. }
  pose proof (Z.div_mod (Z.land x 0xFFFFFFFF00000000) (2 ^ 32) ltac:(lia))
    as Hdm.
  rewrite Hlow, Hhigh in Hdm.
  destruct (Z.ltb_spec x (2 ^ 32)) as [Hlt | Hge].
  - apply Z.eqb_eq. rewrite (Z.div_small x) in Hdm by lia. lia.
  - apply Z.eqb_neq.
    assert (1 <= x / 2 ^ 32) by (apply Z.div_le_lower_bound; lia).
    lia.
Qed.

(** The assertion of [set_jump_destination], as a bound. *)
Lemma jump_assert_test (val : Z) :
  - 2 ^ 63 <= val < 2 ^ 63 ->
  (Z.land (unsigned 64 (labs val)) 0xFFFFFFFF00000000 =? 0)
  = (Z.abs val <? 2 ^ 32).
Proof.
  intros Hv.
  assert (Habs : unsigned 64 (labs val) = Z.abs val).
  { unfold labs, cast_intptr. rewrite unsigned_signed by lia.
    unfold unsigned. apply Z.mod_small. lia. }
  rewrite Habs. apply land_high_half. lia.
Qed.

(** Any destination is the next-instruction address plus the pointer
    difference, at the width of a pointer. *)
Lemma wrap_next_plus_diff (dest next : address) :
  0 <= dest < 2 ^ 64 -> wrap (ptr_diff dest next + next) = dest.
Proof.
  intros Hd. unfold ptr_diff, cast_intptr.
  rewrite Z.add_comm, wrap_add_signed.
  replace (next + (dest - next)) with dest by (unfold address in *; lia).
  apply wrap_small, Hd.
Qed.

(** What [set_jump_destination] stores when it returns. *)
Lemma set_jump_destination_stores {bld : Build}
    (this dest : address) (s : machine) :
  dest <> minus_one ->
  result (NativeJump.set_jump_destination this dest) s = Returned tt ->
  NativeJump.set_jump_destination this dest s
  = set_int_at this NativeJump.data_offset
      (cast_jint (ptr_diff dest (NativeJump.next_instruction_address this))) s.
Proof.
  intros Hne. unfold result, NativeJump.set_jump_destination, bind, assert_,
    guarantee, ret.
  destruct (Z.eqb_spec dest minus_one) as [Heq | _]; [contradiction|].
  destruct ASSERT; [| reflexivity].
  destruct (_ || _); [reflexivity | discriminate].
Qed.

(** X8. For a destination other than -1 whose displacement from the
    next-instruction address fits in 32 bits signed,
    [set_jump_destination] returns in every build and [jump_destination]
    then gives the destination back, except that a jump patched to its own
    address reads back as the sentinel -1. *)
Theorem set_jump_destination_then_jump_destination {bld : Build}
    (this dest : address) (s : machine) :
  0 <= dest < 2 ^ 64 ->
  dest <> minus_one ->
  fits_jint (ptr_diff dest (NativeJump.next_instruction_address this)) = true ->
  result (NativeJump.set_jump_destination this dest) s = Returned tt /\
  NativeJump.jump_destination
    (code (exec (NativeJump.set_jump_destination this dest) s)) this
  = (if dest =? this then minus_one else dest).
Proof.
  intros Hdest Hne Hfit.
  set (val := ptr_diff dest (NativeJump.next_instruction_address this)) in *.
  pose proof (proj1 (fits_jint_spec val) Hfit) as Hval.
  assert (Hres : result (NativeJump.set_jump_destination this dest) s
                 = Returned tt).
  { unfold result, NativeJump.set_jump_destination, bind, assert_, guarantee,
      ret. fold val.
    destruct (Z.eqb_spec dest minus_one) as [Heq | _]; [contradiction|].
    destruct ASSERT; [| reflexivity].
    rewrite jump_assert_test by lia.
    destruct (Z.ltb_spec (Z.abs val) (2 ^ 32)); [reflexivity | lia]. }
  split; [exact Hres|].
  unfold exec. rewrite (set_jump_destination_stores this dest s Hne Hres).
  fold val. fold (exec (set_int_at this NativeJump.data_offset
                          (cast_jint val)) s).
  unfold NativeJump.jump_destination, NativeJump.encoded_destination.
  rewrite int_at_set_int_at.
  assert (Hc : cast_jint val = val) by (apply signed_of_small; lia).
  rewrite !Hc. unfold val. rewrite wrap_next_plus_diff by exact Hdest.
  reflexivity.
Qed.

Lemma set_jump_destination_then_jump_destination_witness :
  let this := 0x7f0000001000 in
  let s := boot (of_bytes this [xe9; x00; x00; x00; x00]) in
  NativeJump.jump_destination
    (code (exec (@NativeJump.set_jump_destination checked_build
                   this 0x7f0000400000) s)) this
  = 0x7f0000400000.
Proof.
  intros this s.
  destruct (@set_jump_destination_then_jump_destination checked_build
              this 0x7f0000400000 s ltac:(lia)) as [_ Hback].
  - discriminate.
  - reflexivity.
  - exact Hback.
Defined.

(** X9. In a checked build [set_jump_destination] returns exactly when the
    destination is -1 or the displacement is below 2^32 in absolute value,
    and stops with the machine unchanged otherwise; in a product build it
    always returns. *)
Theorem set_jump_destination_assertion (this dest : address) (s : machine) :
  let val := ptr_diff dest (NativeJump.next_instruction_address this) in
  (result (@NativeJump.set_jump_destination checked_build this dest) s
   = Returned tt
   <-> Z.abs val < 2 ^ 32 \/ dest = minus_one) /\
  (result (@NativeJump.set_jump_destination checked_build this dest) s
   = Returned tt
   \/ @NativeJump.set_jump_destination checked_build this dest s
      = (Fatal "must be 32bit offset or -1", s)) /\
  result (@NativeJump.set_jump_destination product_build this dest) s
  = Returned tt.
Proof.
  intros val.
  pose proof (ptr_diff_range dest (NativeJump.next_instruction_address this))
    as Hr. fold val in Hr.
  unfold result, NativeJump.set_jump_destination, bind, assert_, guarantee,
    ret. fold val. cbn [ASSERT checked_build product_build].
  destruct (Z.eqb_spec dest minus_one) as [Heq | Hne].
  - rewrite orb_true_r. cbn [fst]. repeat split; auto.
  - rewrite orb_false_r, jump_assert_test by lia.
    destruct (Z.ltb_spec (Z.abs val) (2 ^ 32)) as [Hlt | Hge]; cbn [fst].
    + repeat split; auto.
    + split; [| split; [right; reflexivity | reflexivity]].
      split; [discriminate | intros [Hlt | Heq]; [lia | contradiction]].
Qed.

(** X10. [set_jump_destination], whether it returns or stops at its
    assertion, changes no byte outside the four displacement bytes at
    offsets 1..4; the opcode byte stays, and a jump stays a jump. *)
Theorem set_jump_destination_frame {bld : Build}
    (this dest : address) (s : machine) :
  (forall p : address,
      (forall k, 0 <= k < 4 -> p <> addr_at this (1 + k)) ->
      code (exec (NativeJump.set_jump_destination this dest) s) p
      = code s p) /\
  Classifier.is_jump (code (exec (NativeJump.set_jump_destination this dest)
                              s)) this
  = Classifier.is_jump (code s) this.
Proof.
  assert (Hcases :
    exec (NativeJump.set_jump_destination this dest) s = s \/
    exists i, exec (NativeJump.set_jump_destination this dest) s
              = exec (set_int_at this NativeJump.data_offset i) s).
  { unfold exec, NativeJump.set_jump_destination, bind, assert_, guarantee,
      ret.
    destruct ASSERT; [destruct (_ || _)|];
      try (right; eexists; reflexivity); left; reflexivity. }
  destruct Hcases as [Hsame | [i Hstore]].
  - rewrite Hsame. split; reflexivity.
  - rewrite Hstore. split.
    + intros p Hout. apply set_int_at_frame. exact Hout.
    + unfold Classifier.is_jump, NativeJump.data_offset.
      rewrite set_int_at_first_byte. reflexivity.
Qed.

(** X11. Unlike [set_destination], [set_jump_destination] has no
    guarantee: whenever it returns for a destination other than -1 whose
    displacement does not fit in 32 bits signed, it has stored a truncated
    displacement, and [jump_destination] does not give the destination
    back. *)
Theorem set_jump_destination_truncates {bld : Build}
    (this dest : address) (s : machine) :
  0 <= dest < 2 ^ 64 ->
  dest <> minus_one ->
  fits_jint (ptr_diff dest (NativeJump.next_instruction_address this)) = false ->
  result (NativeJump.set_jump_destination this dest) s = Returned tt ->
  NativeJump.jump_destination
    (code (exec (NativeJump.set_jump_destination this dest) s)) this
  <> dest.
Proof.
  intros Hdest Hne Hfit Hres.
  set (next := NativeJump.next_instruction_address this) in *.
  set (val := ptr_diff dest next) in *.
  unfold exec. rewrite (set_jump_destination_stores this dest s Hne Hres).
  fold next val.
  fold (exec (set_int_at this NativeJump.data_offset (cast_jint val)) s).
  unfold NativeJump.jump_destination, NativeJump.encoded_destination.
  rewrite int_at_set_int_at. fold next.
  assert (Ht : - 2 ^ 31 <= cast_jint val < 2 ^ 31)
    by (apply (signed_range 32); lia).
  assert (Htt : cast_jint (cast_jint val) = cast_jint val)
    by (apply signed_of_small; lia).
  rewrite Htt.
  assert (Hnot : ~ (- 2 ^ 31 <= val < 2 ^ 31)).
  { intros Hin. apply fits_jint_spec in Hin. congruence. }
  pose proof (ptr_diff_range dest next) as Hv. fold val in Hv.
  assert (Henc : wrap (cast_jint val + next) <> dest).
  { intros Heq.
    pose proof (wrap_next_plus_diff dest next Hdest) as Hd. fold val in Hd.
    rewrite <- Heq in Hd. clear Heq.
    unfold wrap, unsigned, address_bits in Hd.
    unfold address in *.
    change (2 ^ 64) with 18446744073709551616 in *.
    change (2 ^ 63) with 9223372036854775808 in *.
    change (2 ^ 31) with 2147483648 in *.
    Z.div_mod_to_equations. lia. }
  destruct (_ =? this); [congruence | exact Henc].
Qed.

Lemma set_jump_destination_truncates_witness :
  let this := 0x10000000 in
  let dest := this + 5 + 2 ^ 31 in
  let s := boot (of_bytes this [xe9; x00; x00; x00; x00]) in
  NativeJump.jump_destination
    (code (exec (@NativeJump.set_jump_destination checked_build this dest) s))
    this
  <> dest.
Proof.
  intros this dest s.
  apply (@set_jump_destination_truncates checked_build this dest s).
  - unfold dest, this. lia.
  - discriminate.
  - reflexivity.
  - reflexivity.
Defined.

(** ** Further facts: the immediate load *)




(** X13. [set_data] changes no byte in front of the immediate: the size
    and the data offset of the view stay as they were, and the view is a
    [mov] of a 64-bit literal afterwards exactly if it was one before. *)
Theorem set_data_keeps_shape {asm : Assembler}
    (this : address) (x : Z) (s : machine) :
  let m := code s in
  let m' := code (exec (NativeMovConstReg.set_data this x) s) in
  (forall k, 0 <= k < NativeMovConstReg.data_byte_offset m this ->
             ubyte_at m' this k = ubyte_at m this k) /\
  NativeMovConstReg.instruction_size m' this
  = NativeMovConstReg.instruction_size m this /\
  NativeMovConstReg.data_byte_offset m' this
  = NativeMovConstReg.data_byte_offset m this /\
  Classifier.is_mov_literal64 m' this = Classifier.is_mov_literal64 m this.
Proof.
  intros m m'.
  assert (Hoff : 2 <= NativeMovConstReg.data_byte_offset m this <= 3).
  { unfold NativeMovConstReg.data_byte_offset.
    destruct (has_rex2_prefix m this); cbn; lia. }
  assert (Hkeep : forall k, 0 <= k < NativeMovConstReg.data_byte_offset m this
                            -> ubyte_at m' this k = ubyte_at m this k).
  { intros k Hk. unfold m', NativeMovConstReg.set_data, exec, set_ptr_at.
    rewrite setter_runs. cbn [snd code]. fold m.
    apply ubyte_at_store_above; [exact Hk | cbn; lia]. }
  assert (H0 : ubyte_at m' this 0 = ubyte_at m this 0) by (apply Hkeep; lia).
  assert (H1 : ubyte_at m' this 1 = ubyte_at m this 1) by (apply Hkeep; lia).
  split; [exact Hkeep|].
  unfold NativeMovConstReg.instruction_size,
    NativeMovConstReg.data_byte_offset, Classifier.is_mov_literal64,
    has_rex2_prefix in *.
  rewrite H0, H1.
  destruct (ubyte_at m this 0 =? REX2) eqn:Hrex2.
  - rewrite (Hkeep 2) by (cbn; lia). repeat split.
  - repeat split.
Qed.

(** ** Further facts: the post-call metadata slot *)

(** X14. When [decode] succeeds, [cb_offset] is below 2^24, [oopmap_slot]
    is below 256, the payload word is [oopmap_slot * 2^24 + cb_offset], so
    nothing of the payload is lost, and the two fields are never both
    zero. *)
Theorem decode_success_fields
    (m : memory) (this : address) (slot0 off0 : Z) :
  fst (NativePostCallNop.decode m this slot0 off0) = true ->
  let slot := fst (snd (NativePostCallNop.decode m this slot0 off0)) in
  let off := snd (snd (NativePostCallNop.decode m this slot0 off0)) in
  0 <= off < 2 ^ 24 /\ 0 <= slot < 256 /\
  unsigned 32 (int_at m this NativePostCallNop.displacement_offset)
  = slot * 2 ^ 24 + off /\
  (slot, off) <> (0, 0).
Proof.
  intros Hok.
  destruct (Z.eq_dec (int_at m this NativePostCallNop.displacement_offset) 0)
    as [Hz | Hnz].
  - unfold NativePostCallNop.decode in Hok. rewrite Hz in Hok.
    discriminate Hok.
  - rewrite (decode_present m this slot0 off0 Hnz). cbn [fst snd].
    set (payload :=
           unsigned 32 (int_at m this NativePostCallNop.displacement_offset)).
    assert (Hp : 0 <= payload < 2 ^ 32) by (apply unsigned_range; lia).
    assert (Hpnz : payload <> 0).
    { intros Hp0. apply Hnz. apply payload_zero_iff. exact Hp0. }
    change (2 ^ 32) with 4294967296 in Hp.
    change (2 ^ 24) with 16777216.
    repeat apply conj.
    + apply Z.mod_pos_bound. lia.
    + apply Z.mod_pos_bound. lia.
    + apply Z.div_pos; lia.
    + apply Z.div_lt_upper_bound; lia.
    + rewrite (Z.div_mod payload 16777216) at 1 by lia. ring.
    + intros Heq. injection Heq as Hs Ho.
      pose proof (Z.div_mod payload 16777216 ltac:(lia)). lia.
Qed.

Lemma decode_success_fields_witness :
  let m := of_bytes 4096 [x0f; x1f; x84; x00; x23; x01; x00; x05] in
  unsigned 32 (int_at m 4096 NativePostCallNop.displacement_offset)
  = fst (snd (NativePostCallNop.decode m 4096 0 0)) * 2 ^ 24
    + snd (snd (NativePostCallNop.decode m 4096 0 0)).
Proof.
  intros m.
  destruct (decode_success_fields m 4096 0 0) as (_ & _ & Hword & _).
  - reflexivity.
  - exact Hword.
Defined.

(** ** Further facts: the raw accessors and the log *)

(** X15. Each raw setter is read back by its getter at the same offset:
    a byte through [ubyte_at] (and as its two's-complement value through
    [sbyte_at]), a [jint] through [int_at], an [intptr_t] through [ptr_at],
    a pointer through [oop_at]. *)
Theorem raw_accessors_read_back
    (this offset : Z) (c i ptr o : Z) (s : machine) :
  0 <= c < 256 ->
  fits_jint i = true ->
  min_intptr <= ptr <= max_intptr ->
  0 <= o < 2 ^ 64 ->
  ubyte_at (code (exec (set_char_at this offset c) s)) this offset = c /\
  sbyte_at (code (exec (set_char_at this offset c) s)) this offset
  = cast_schar c /\
  int_at (code (exec (set_int_at this offset i) s)) this offset = i /\
  ptr_at (code (exec (set_ptr_at this offset ptr) s)) this offset = ptr /\
  oop_at (code (exec (set_oop_at this offset o) s)) this offset = o.
Proof.
  intros Hc Hi Hp Ho.
  assert (Hbyte : ubyte_at (code (exec (set_char_at this offset c) s))
                    this offset = c).
  { unfold set_char_at, exec. rewrite setter_runs. cbn [snd code].
    unfold ubyte_at. cbn [store_le].
    replace (wrap (addr_at this offset)) with (addr_at this offset)
      by (symmetry; apply wrap_small, wrap_range).
    rewrite store_byte_same, Z_of_byte_of_Z. apply Z.mod_small, Hc. }
  split; [exact Hbyte|]. split.
  { unfold sbyte_at. unfold ubyte_at in Hbyte. rewrite Hbyte. reflexivity. }
  split.
  { rewrite int_at_set_int_at. apply fits_jint_spec in Hi.
    apply signed_of_small; lia. }
  split.
  { rewrite ptr_at_set_ptr_at. unfold min_intptr, max_intptr in Hp.
    apply signed_of_small; lia. }
  unfold set_oop_at, exec. rewrite setter_runs. cbn [snd code].
  unfold oop_at. rewrite load_store_le_same by (cbn; lia).
  change (256 ^ Z.of_nat 8) with (2 ^ 64). apply Z.mod_small, Ho.
Qed.

Lemma raw_accessors_read_back_witness :
  int_at (code (exec (set_int_at 4096 1 (-5))
                  (boot (of_bytes 4096 [xe9; x00; x00; x00; x00]))))
    4096 1
  = -5.
Proof.
  destruct (raw_accessors_read_back 4096 1 0x90 (-5) (-1) 4096
              (boot (of_bytes 4096 [xe9; x00; x00; x00; x00])))
    as (_ & _ & Hint & _).
  - lia.
  - reflexivity.
  - unfold min_intptr, max_intptr. lia.
  - lia.
  - exact Hint.
Defined.

(** A patching operation leaves the machine as it was or is one raw
    setter. *)
Lemma log_after_setter (this off v : Z) (w : nat) (s : machine) :
  hook_follows_stores (log s) = true ->
  hook_follows_stores
    (log (exec (bind (store (addr_at this off) w v)
                  (fun _ => wrote this off)) s)) = true.
Proof.
  intros Hs. unfold exec. rewrite setter_runs. cbn [snd log].
  apply hook_follows_stores_snoc, Hs.
Qed.

(** X16. The patching operations of the variants, [set_destination],
    [set_jump_destination] and [set_data], keep the write discipline: on a
    log in which every store is directly followed by the hook, each of
    them, returning or not, leaves such a log. *)
Theorem patch_operations_keep_discipline {asm : Assembler} {bld : Build}
    (this dest : address) (x : Z) (s : machine) :
  hook_follows_stores (log s) = true ->
  hook_follows_stores (log (exec (NativeCall.set_destination this dest) s))
  = true /\
  hook_follows_stores
    (log (exec (NativeJump.set_jump_destination this dest) s)) = true /\
  hook_follows_stores (log (exec (NativeMovConstReg.set_data this x) s))
  = true.
Proof.
  intros Hs. split; [| split].
  - unfold NativeCall.set_destination, exec, bind at 1, guarantee.
    destruct (_ =? _); [| exact Hs]. apply log_after_setter, Hs.
  - unfold NativeJump.set_jump_destination, exec, bind at 1, assert_,
      guarantee, ret.
    destruct ASSERT; [destruct (_ || _)|];
      try exact Hs; apply log_after_setter, Hs.
  - unfold NativeMovConstReg.set_data. apply log_after_setter, Hs.
Qed.

Lemma patch_operations_keep_discipline_witness :
  let s := boot (of_bytes 4096 [xe8; x00; x00; x00; x00]) in
  hook_follows_stores
    (log (exec (NativeCall.set_destination 4096 8192) s)) = true.
Proof.
  intros s.
  destruct (@patch_operations_keep_discipline x86_64 checked_build
              4096 8192 0 s) as (Hcall & _ & _).
  - reflexivity.
  - exact Hcall.
Defined.
